(** * Band-structure construction of [ph_unfolder.phonon.band_structure]

    A shallow embedding of the class [BandStructure]: the distance walker
    ([_set_initial_point], [_shift_point]), the per-path solver
    ([_solve_dm_on_path]), the aggregator ([_set_band]), the constructor
    and the two exporters ([write_hdf5], [write_yaml]).

    Conventions of the embedding.
    - numpy's [float64] arithmetic is idealised as arithmetic on [R];
    - a q-point is a 3-vector, a lattice a 3x3 matrix given by its rows;
    - the object [self] is a record, mutated through a state-and-exception
      monad; a write to an attribute is a functional record update;
    - an attribute that may not have been assigned yet is an [option]
      field, read through [getattr], which raises [AttributeError];
    - the collaborators (eigenstate extractor, group-velocity calculator,
      density extractor, the two opened files) are interfaces; every call
      made to them is appended to a log of events. *)

From Stdlib Require Import String Reals Lra List ZArith Sorted Bool Lia.
Import ListNotations.
Open Scope R_scope.

(* ------------------------------------------------------------------ *)
(** ** Vectors and matrices *)

Record vec3 : Type := Vec3 { vx : R; vy : R; vz : R }.

(** A 3x3 array, stored row by row as numpy does. *)
Record mat3 : Type := Mat3 { row0 : vec3; row1 : vec3; row2 : vec3 }.

Definition vzero : vec3 := Vec3 0 0 0.

(** [a - b] on arrays of shape (3,). *)
Definition vsub (a b : vec3) : vec3 :=
  Vec3 (vx a - vx b) (vy a - vy b) (vz a - vz b).

(** [m.T] *)
Definition transpose (m : mat3) : mat3 :=
  Mat3 (Vec3 (vx (row0 m)) (vx (row1 m)) (vx (row2 m)))
       (Vec3 (vy (row0 m)) (vy (row1 m)) (vy (row2 m)))
       (Vec3 (vz (row0 m)) (vz (row1 m)) (vz (row2 m))).

(** [np.dot(v, m)] for [v] of shape (3,) and [m] of shape (3, 3):
    the j-th entry is the sum over i of [v[i] * m[i, j]]. *)
Definition dot (v : vec3) (m : mat3) : vec3 :=
  Vec3 (vx v * vx (row0 m) + vy v * vx (row1 m) + vz v * vx (row2 m))
       (vx v * vy (row0 m) + vy v * vy (row1 m) + vz v * vy (row2 m))
       (vx v * vz (row0 m) + vy v * vz (row1 m) + vz v * vz (row2 m)).

(** [np.linalg.norm(v)] for a 1-D array: the Euclidean norm. *)
Definition norm (v : vec3) : R :=
  sqrt (vx v * vx v + vy v * vy v + vz v * vz v).

Definition det (m : mat3) : R :=
  let '(Mat3 (Vec3 a b c) (Vec3 d e f) (Vec3 g h i)) := m in
  a * (e * i - f * h) - b * (d * i - f * g) + c * (d * h - e * g).

(** The adjugate divided by the determinant. *)
Definition inverse_of (m : mat3) : mat3 :=
  let '(Mat3 (Vec3 a b c) (Vec3 d e f) (Vec3 g h i)) := m in
  let D := det m in
  Mat3 (Vec3 ((e * i - f * h) / D) ((c * h - b * i) / D) ((b * f - c * e) / D))
       (Vec3 ((f * g - d * i) / D) ((a * i - c * g) / D) ((c * d - a * f) / D))
       (Vec3 ((d * h - e * g) / D) ((b * g - a * h) / D) ((a * e - b * d) / D)).

(** [np.linalg.inv(m)]: numpy raises [LinAlgError] on a singular matrix,
    which is [None] here. *)
Definition linalg_inv (m : mat3) : option mat3 :=
  if Req_dec_T (det m) 0 then None else Some (inverse_of m).

Definition identity : mat3 := Mat3 (Vec3 1 0 0) (Vec3 0 1 0) (Vec3 0 0 1).

(** Complex numbers, as real and imaginary part. *)
Record complex : Type := Complex { real : R; imag : R }.

(* ------------------------------------------------------------------ *)
(** ** Python containers *)

(** [l[i]] for a non-negative index. *)
Definition index {A : Type} (l : list A) (i : nat) : option A := nth_error l i.

(** [l[:n]] with Python's reading of a negative bound. *)
Definition slice_to {A : Type} (n : Z) (l : list A) : list A :=
  if (n <? 0)%Z
  then firstn (Z.to_nat (Z.of_nat (length l) + n)) l
  else firstn (Z.to_nat n) l.

(** [a[:, :n]] on a 2-D array stored row by row. *)
Definition slice_columns (n : Z) (a : list (list R)) : list (list R) :=
  map (slice_to n) a.

(* ------------------------------------------------------------------ *)
(** ** Exceptions and results *)

Inductive exn : Type :=
| ValueError
| IndexError
| LinAlgError
| TypeError
| AttributeError (name : string).

Inductive result (A : Type) : Type :=
| Ok (a : A)
| Raise (e : exn).

Arguments Ok {A} a.
Arguments Raise {A} e.

(* ------------------------------------------------------------------ *)
(** ** Collaborators *)

(** What [extract_eigenstates] returns at one q-point. The partial weights
    are an array whose shape belongs to the collaborator: [PrW]. *)
Record eigen_output (PrW : Type) : Type := EigenOutput {
  out_eigvals : list R;
  out_eigvecs : list (list complex);
  out_pr_weights : PrW;
  out_rot_pr_weights : list (list R)
}.

Arguments EigenOutput {PrW}.
Arguments out_eigvals {PrW}.
Arguments out_eigvecs {PrW}.
Arguments out_pr_weights {PrW}.
Arguments out_rot_pr_weights {PrW}.

(** The eigenstate extractor: an object of state [ES]. The four queries
    read the state left by the latest extraction. *)
Class Eigenstates (ES PrW : Type) : Type := {
  extract_eigenstates : ES -> vec3 -> ES * eigen_output PrW;
  get_pointgroup_symbol : ES -> string;
  get_narms : ES -> Z;
  get_num_irs : ES -> Z;
  get_ir_labels : ES -> list string
}.

(** The group-velocity calculator: an object of state [GV]; its result is
    indexed by point, then by band. *)
Class GroupVelocity (GV : Type) : Type := {
  set_q_points : GV -> list vec3 -> GV;
  get_group_velocity : GV -> list (list vec3)
}.

(** [self._dynamical_matrix], of which only [is_nac()] is used. *)
Record dynamical_matrix_t : Type := DynamicalMatrix { is_nac : bool }.

(** The ideal primitive cell [get_primitive(unitcell_ideal,
    primitive_matrix_ideal)]. *)
Record cell_t : Type := Cell {
  get_cell : mat3;
  get_number_of_atoms : Z
}.

(** The formats of the [%] operator: ["%d"], ["%-7d"], ["%2s"] and
    ["%w.pf"]. *)
Class Formats : Type := {
  fmt_d : Z -> string;
  fmt_d_left7 : Z -> string;
  fmt_s2 : string -> string;
  fmt_f : nat -> nat -> R -> string
}.

(** Modelled from the spec: [calculate_frequencies] of
    [ph_unfolder.phonon.eigenstates], which is not among the sources here.
    The spec gives [frequency = sign(lambda) * factor * sqrt(|lambda|)]. *)
Definition sign (x : R) : R :=
  if Rlt_dec x 0 then -1 else if Rlt_dec 0 x then 1 else 0.

Definition calculate_frequencies (eigvals : list R) (factor : R) : list R :=
  map (fun lambda => sign lambda * factor * sqrt (Rabs lambda)) eigvals.

(** The line feed of ["\n"]. *)
Definition nl : string := String (Ascii.ascii_of_nat 10) EmptyString.

Definition fn_sf_atoms : string := "spectral_functions_atoms.dat".
Definition fn_sf_irs : string := "spectral_functions_irs.dat".

Section BandStructure.

Context {ES PrW GV : Type}.
Context {eigenstates_ops : Eigenstates ES PrW}.
Context {group_velocity_ops : GroupVelocity GV}.
Context {formats : Formats}.

(** The [weights_data] argument of [calculate_density]. *)
Inductive weights_data_t : Type :=
| PrWeights (w : PrW)
| RotPrWeights (w : list (list R)).

(** The [data] argument of [create_dataset]. *)
Inductive dataset_t : Type :=
| DataPaths (v : list (list vec3))
| DataReal2 (v : list (list R))
| DataInt2 (v : list (list Z))
| DataString2 (v : list (list string))
| DataString3 (v : list (list (list string)))
| DataReal3 (v : list (list (list R)))
| DataPrWeights (v : list (list PrW))
| DataVec3 (v : list (list (list vec3)))
| DataComplex4 (v : list (list (list (list complex))))
| DataGroupVelocityObject (g : GV).

(** Calls that leave the object: to a collaborator, to a file, to the
    standard output. *)
Inductive event : Type :=
| Open (fn : string)
| Close (fn : string)
| Write (fn : string) (text : string)
| Print (text : string)
| CreateDataset (fn : string) (name : string) (data : dataset_t)
| SetQPoints (path : list vec3)
| GetGroupVelocity
| ExtractEigenstates (q : vec3)
| CalculateDensity (distance : R) (narms : Z) (frequencies : list R)
    (weights_data : weights_data_t)
    (eigenvectors_data : option (list (list complex)))
| PrintPartialDensity (file : string).

(* ------------------------------------------------------------------ *)
(** ** The object *)

Record self_t : Type := Build_self {
  _dynamical_matrix : dynamical_matrix_t;
  _cell : cell_t;
  _factor : R;
  _is_eigenvectors : bool;
  _is_band_connection : bool;
  _group_velocity : option GV;
  _paths : list (list vec3);
  _distances : list (list R);
  _distance : R;
  _special_point : list R;
  _eigenvectors : option (list (list (list (list complex))));
  _frequencies : option (list (list (list R)));
  _eigenstates : ES;
  (* attributes below are assigned after [__init__]'s first lines:
     [None] is an attribute not assigned yet *)
  _lastq : option vec3;
  _pg_symbol_on_path : option (list string);
  _pr_weights : option (list (list PrW));
  _nums_arms : option (list (list Z));
  _nums_irreps : option (list (list Z));
  _rot_pr_weights : option (list (list (list (list R))));
  _ir_labels : option (list (list (list string)));
  _pg_symbols : option (list (list string));
  _group_velocities : option (list (list (list vec3)));
  _weights : option (list (list (list R)))
}.

(** Assignment to the attributes that change while the paths are walked. *)
Definition update (distance : R) (lastq : option vec3) (special_point : list R)
    (pg_symbol_on_path : option (list string)) (eigenstates : ES)
    (group_velocity : option GV) (s : self_t) : self_t :=
  {| _dynamical_matrix := _dynamical_matrix s; _cell := _cell s;
     _factor := _factor s; _is_eigenvectors := _is_eigenvectors s;
     _is_band_connection := _is_band_connection s;
     _group_velocity := group_velocity; _paths := _paths s;
     _distances := _distances s; _distance := distance;
     _special_point := special_point; _eigenvectors := _eigenvectors s;
     _frequencies := _frequencies s; _eigenstates := eigenstates;
     _lastq := lastq; _pg_symbol_on_path := pg_symbol_on_path;
     _pr_weights := _pr_weights s; _nums_arms := _nums_arms s;
     _nums_irreps := _nums_irreps s; _rot_pr_weights := _rot_pr_weights s;
     _ir_labels := _ir_labels s; _pg_symbols := _pg_symbols s;
     _group_velocities := _group_velocities s; _weights := _weights s |}.

Definition set_distance (v : R) (s : self_t) : self_t :=
  update v (_lastq s) (_special_point s) (_pg_symbol_on_path s)
    (_eigenstates s) (_group_velocity s) s.

Definition set_lastq (v : option vec3) (s : self_t) : self_t :=
  update (_distance s) v (_special_point s) (_pg_symbol_on_path s)
    (_eigenstates s) (_group_velocity s) s.

Definition set_special_point (v : list R) (s : self_t) : self_t :=
  update (_distance s) (_lastq s) v (_pg_symbol_on_path s)
    (_eigenstates s) (_group_velocity s) s.

Definition set_pg_symbol_on_path (v : option (list string)) (s : self_t)
    : self_t :=
  update (_distance s) (_lastq s) (_special_point s) v
    (_eigenstates s) (_group_velocity s) s.

Definition set_eigenstates (v : ES) (s : self_t) : self_t :=
  update (_distance s) (_lastq s) (_special_point s) (_pg_symbol_on_path s)
    v (_group_velocity s) s.

Definition set_group_velocity (v : option GV) (s : self_t) : self_t :=
  update (_distance s) (_lastq s) (_special_point s) (_pg_symbol_on_path s)
    (_eigenstates s) v s.

(* ------------------------------------------------------------------ *)
(** ** The monad of methods

    A method takes the object and gives a result or an exception, the
    object as it has left it, and the events it has emitted, in order.
    An exception keeps the mutations and the events made before it. *)

Definition M (A : Type) : Type := self_t -> result A * self_t * list event.

Definition ret {A : Type} (a : A) : M A := fun s => (Ok a, s, []).

Definition bind {A B : Type} (m : M A) (f : A -> M B) : M B :=
  fun s =>
    match m s with
    | (Ok a, s1, l1) =>
        match f a s1 with
        | (r, s2, l2) => (r, s2, l1 ++ l2)
        end
    | (Raise e, s1, l1) => (Raise e, s1, l1)
    end.

Definition raise {A : Type} (e : exn) : M A := fun s => (Raise e, s, []).

Definition get : M self_t := fun s => (Ok s, s, []).

Definition modify (f : self_t -> self_t) : M unit := fun s => (Ok tt, f s, []).

Definition emit (e : event) : M unit := fun s => (Ok tt, s, [e]).

(** Reading an attribute that may not have been assigned. *)
Definition getattr {A : Type} (name : string) (field : self_t -> option A)
    : M A :=
  fun s =>
    match field s with
    | Some a => (Ok a, s, [])
    | None => (Raise (AttributeError name), s, [])
    end.

(** [with open(fn, "w") as f: body]: the file is closed on every exit. *)
Definition with_open {A : Type} (fn : string) (body : M A) : M A :=
  fun s =>
    match body s with
    | (r, s1, l1) => (r, s1, Open fn :: l1 ++ [Close fn])
    end.

Notation "x <- m ;; k" := (bind m (fun x => k))
  (at level 61, m at next level, right associativity).
Notation "m ;; k" := (bind m (fun _ => k))
  (at level 61, right associativity).

(** [for i, x in enumerate(xs): locals = body(i, x, locals)] *)
Fixpoint for_enumerate {A L : Type} (body : nat -> A -> L -> M L)
    (i : nat) (xs : list A) (locals : L) : M L :=
  match xs with
  | [] => ret locals
  | x :: xs' =>
      locals' <- body i x locals ;;
      for_enumerate body (S i) xs' locals'
  end.

(** [for x in xs: locals = body(x, locals)] *)
Fixpoint for_each {A L : Type} (body : A -> L -> M L)
    (xs : list A) (locals : L) : M L :=
  match xs with
  | [] => ret locals
  | x :: xs' =>
      locals' <- body x locals ;;
      for_each body xs' locals'
  end.


(* ------------------------------------------------------------------ *)
(** ** The walker *)

Definition _set_initial_point (qpoint : vec3) : M unit :=
  modify (set_lastq (Some qpoint)).

Definition _shift_point (qpoint : vec3) : M unit :=
  self <- get ;;
  lastq <- getattr "_lastq" _lastq ;;
  match linalg_inv (get_cell (_cell self)) with
  | None => raise LinAlgError
  | Some inv =>
      modify (set_distance
                (_distance self + norm (dot (vsub qpoint lastq) (transpose inv)))) ;;
      modify (set_lastq (Some qpoint))
  end.

(* ------------------------------------------------------------------ *)
(** ** One path *)

(** The local lists of [_solve_dm_on_path]. The method returns all of
    them but [pg_symbol_on_path], which it stores in the object. *)
Record path_locals : Type := PathLocals {
  distances_on_path : list R;
  frequencies_on_path : list (list R);
  eigvecs_on_path : list (list (list complex));
  pr_weights_on_path : list PrW;
  nqstar_on_path : list Z;
  gv_on_path : list (list vec3);
  rot_pr_weights_on_path : list (list (list R));
  pg_symbol_on_path : list string;
  num_irs_on_path : list Z;
  ir_labels_on_path : list (list string)
}.

Definition empty_path_locals : path_locals :=
  PathLocals [] [] [] [] [] [] [] [] [] [].

(** The body of [for i, q in enumerate(path)]. [gv] is the local variable
    of that name, bound only when a group-velocity object is present. *)
Definition solve_point (is_nac : bool) (gv : option (list (list vec3)))
    (i : nat) (q : vec3) (L : path_locals) : M path_locals :=
  _shift_point q ;;
  self <- get ;;
  let distance := _distance self in
  (if is_nac
   then emit (Print "ERROR: NAC is not implemented yet for unfolding") ;;
        raise ValueError
   else ret tt) ;;
  let '(eigenstates, out) := extract_eigenstates (_eigenstates self) q in
  emit (ExtractEigenstates q) ;;
  modify (set_eigenstates eigenstates) ;;
  let eigvecs := out_eigvecs out in
  let pr_weights := out_pr_weights out in
  let rot_pr_weights := out_rot_pr_weights out in
  let frequencies := calculate_frequencies (out_eigvals out) (_factor self) in
  let pg_symbol := get_pointgroup_symbol eigenstates in
  let narms := get_narms eigenstates in
  let num_irs := get_num_irs eigenstates in
  let ir_labels := get_ir_labels eigenstates in
  emit (CalculateDensity distance narms frequencies
          (PrWeights pr_weights) (Some eigvecs)) ;;
  emit (PrintPartialDensity fn_sf_atoms) ;;
  emit (CalculateDensity distance narms frequencies
          (RotPrWeights (slice_columns num_irs rot_pr_weights)) None) ;;
  emit (PrintPartialDensity fn_sf_irs) ;;
  gv_i <- match gv with
          | None => ret None
          | Some gv =>
              match index gv i with
              | Some v => ret (Some v)
              | None => raise IndexError
              end
          end ;;
  ret {| distances_on_path := distances_on_path L ++ [distance];
         frequencies_on_path := frequencies_on_path L ++ [frequencies];
         eigvecs_on_path :=
           if _is_eigenvectors self
           then eigvecs_on_path L ++ [eigvecs] else eigvecs_on_path L;
         pr_weights_on_path := pr_weights_on_path L ++ [pr_weights];
         nqstar_on_path := nqstar_on_path L ++ [narms];
         gv_on_path :=
           match gv_i with
           | Some v => gv_on_path L ++ [v]
           | None => gv_on_path L
           end;
         rot_pr_weights_on_path := rot_pr_weights_on_path L ++ [rot_pr_weights];
         pg_symbol_on_path := pg_symbol_on_path L ++ [pg_symbol];
         num_irs_on_path := num_irs_on_path L ++ [num_irs];
         ir_labels_on_path := ir_labels_on_path L ++ [ir_labels] |}.

(** The batch call made when [self._group_velocity is not None]. *)
Definition batch_group_velocity (path : list vec3)
    : M (option (list (list vec3))) :=
  self <- get ;;
  match _group_velocity self with
  | None => ret None
  | Some g =>
      emit (SetQPoints path) ;;
      modify (set_group_velocity (Some (set_q_points g path))) ;;
      emit GetGroupVelocity ;;
      ret (Some (get_group_velocity (set_q_points g path)))
  end.

Definition _solve_dm_on_path (path : list vec3) : M path_locals :=
  self <- get ;;
  let is_nac := is_nac (_dynamical_matrix self) in
  gv <- batch_group_velocity path ;;
  L <- for_enumerate (solve_point is_nac gv) 0 path empty_path_locals ;;
  modify (set_pg_symbol_on_path (Some (pg_symbol_on_path L))) ;;
  ret L.

Definition get_pg_symbol_on_path : M (list string) :=
  getattr "_pg_symbol_on_path" _pg_symbol_on_path.


(* ------------------------------------------------------------------ *)
(** ** All paths *)

(** The local lists of [_set_band]. *)
Record band_locals : Type := BandLocals {
  frequencies : list (list (list R));
  eigvecs : list (list (list (list complex)));
  pr_weights : list (list PrW);
  nums_arms : list (list Z);
  group_velocities : list (list (list vec3));
  distances : list (list R);
  rot_pr_weights : list (list (list (list R)));
  nums_irreps : list (list Z);
  ir_labels : list (list (list string));
  pg_symbols : list (list string)
}.

Definition empty_band_locals : band_locals :=
  BandLocals [] [] [] [] [] [] [] [] [] [].

(** The body of [for path in self._paths]. [path[0]] raises [IndexError]
    on a path without points. *)
Definition set_band_path (path : list vec3) (B : band_locals)
    : M band_locals :=
  q0 <- match path with
        | [] => raise IndexError
        | q :: _ => ret q
        end ;;
  _set_initial_point q0 ;;
  L <- _solve_dm_on_path path ;;
  pg_symbol <- get_pg_symbol_on_path ;;
  self <- get ;;
  modify (set_special_point (_special_point self ++ [_distance self])) ;;
  ret {| frequencies := frequencies B ++ [frequencies_on_path L];
         eigvecs :=
           if _is_eigenvectors self
           then eigvecs B ++ [eigvecs_on_path L] else eigvecs B;
         pr_weights := pr_weights B ++ [pr_weights_on_path L];
         nums_arms := nums_arms B ++ [nqstar_on_path L];
         group_velocities :=
           match _group_velocity self with
           | Some _ => group_velocities B ++ [gv_on_path L]
           | None => group_velocities B
           end;
         distances := distances B ++ [distances_on_path L];
         rot_pr_weights := rot_pr_weights B ++ [rot_pr_weights_on_path L];
         nums_irreps := nums_irreps B ++ [num_irs_on_path L];
         ir_labels := ir_labels B ++ [ir_labels_on_path L];
         pg_symbols := pg_symbols B ++ [pg_symbol] |}.

(** The assignments that end [_set_band]. *)
Definition assign_band (B : band_locals) (s : self_t) : self_t :=
  {| _dynamical_matrix := _dynamical_matrix s; _cell := _cell s;
     _factor := _factor s; _is_eigenvectors := _is_eigenvectors s;
     _is_band_connection := _is_band_connection s;
     _group_velocity := _group_velocity s; _paths := _paths s;
     _distances := distances B; _distance := _distance s;
     _special_point := _special_point s;
     _eigenvectors :=
       if _is_eigenvectors s then Some (eigvecs B) else _eigenvectors s;
     _frequencies := Some (frequencies B); _eigenstates := _eigenstates s;
     _lastq := _lastq s; _pg_symbol_on_path := _pg_symbol_on_path s;
     _pr_weights := Some (pr_weights B); _nums_arms := Some (nums_arms B);
     _nums_irreps := Some (nums_irreps B);
     _rot_pr_weights := Some (rot_pr_weights B);
     _ir_labels := Some (ir_labels B); _pg_symbols := Some (pg_symbols B);
     _group_velocities :=
       match _group_velocity s with
       | Some _ => Some (group_velocities B)
       | None => _group_velocities s
       end;
     _weights := _weights s |}.

Definition _set_band : M unit :=
  self <- get ;;
  B <- for_each set_band_path (_paths self) empty_band_locals ;;
  modify (assign_band B).

(** The object as the first lines of [__init__] leave it. [eigenstates]
    is the object built by [Eigenstates(...)], [cell] the one built by
    [get_primitive(...)]. *)
Definition new_self (paths : list (list vec3))
    (dynamical_matrix : dynamical_matrix_t) (cell : cell_t)
    (eigenstates : ES) (is_eigenvectors is_band_connection : bool)
    (group_velocity : option GV) (factor : R) : self_t :=
  {| _dynamical_matrix := dynamical_matrix; _cell := cell;
     _factor := factor;
     _is_eigenvectors := if is_band_connection then true else is_eigenvectors;
     _is_band_connection := is_band_connection;
     _group_velocity := group_velocity; _paths := paths;
     _distances := []; _distance := 0; _special_point := [0];
     _eigenvectors := None; _frequencies := None;
     _eigenstates := eigenstates;
     _lastq := None; _pg_symbol_on_path := None; _pr_weights := None;
     _nums_arms := None; _nums_irreps := None; _rot_pr_weights := None;
     _ir_labels := None; _pg_symbols := None; _group_velocities := None;
     _weights := None |}.

(** The constructor: the object when it returns, the exception when it
    raises, and the events of the construction in both cases. *)
Definition __init__ (paths : list (list vec3))
    (dynamical_matrix : dynamical_matrix_t) (cell : cell_t)
    (eigenstates : ES) (is_eigenvectors is_band_connection : bool)
    (group_velocity : option GV) (factor : R)
    : result self_t * list event :=
  match with_open fn_sf_atoms (with_open fn_sf_irs _set_band)
          (new_self paths dynamical_matrix cell eigenstates
             is_eigenvectors is_band_connection group_velocity factor)
  with
  | (Ok _, self, log) => (Ok self, log)
  | (Raise e, _, log) => (Raise e, log)
  end.


(* ------------------------------------------------------------------ *)
(** ** The exporters *)

Definition fn_hdf5 : string := "band.hdf5".
Definition fn_yaml : string := "band.yaml".

(** [l[i]], raising [IndexError] out of range. *)
Definition item {A : Type} (l : list A) (i : nat) : M A :=
  match index l i with
  | Some a => ret a
  | None => raise IndexError
  end.

(** [for i, x in enumerate(xs): body(i, x)] *)
Definition for_enumerate_ {A : Type} (body : nat -> A -> M unit)
    (xs : list A) : M unit :=
  for_enumerate (fun i x _ => body i x) 0 xs tt.

Definition create_dataset (name : string) (data : dataset_t) : M unit :=
  emit (CreateDataset fn_hdf5 name data).

Definition write_hdf5 : M unit :=
  with_open fn_hdf5
    (self <- get ;;
     create_dataset "paths" (DataPaths (_paths self)) ;;
     create_dataset "distances" (DataReal2 (_distances self)) ;;
     nums_arms <- getattr "_nums_arms" _nums_arms ;;
     create_dataset "nums_arms" (DataInt2 nums_arms) ;;
     pg_symbols <- getattr "_pg_symbols" _pg_symbols ;;
     create_dataset "pg_symbols" (DataString2 pg_symbols) ;;
     nums_irreps <- getattr "_nums_irreps" _nums_irreps ;;
     create_dataset "nums_irreps" (DataInt2 nums_irreps) ;;
     ir_labels <- getattr "_ir_labels" _ir_labels ;;
     create_dataset "ir_labels" (DataString3 ir_labels) ;;
     match _frequencies self with
     | Some frequencies => create_dataset "frequencies" (DataReal3 frequencies)
     | None => raise TypeError
     end ;;
     pr_weights <- getattr "_pr_weights" _pr_weights ;;
     create_dataset "pr_weights" (DataPrWeights pr_weights) ;;
     match _group_velocity self with
     | Some group_velocity =>
         create_dataset "group_velocities"
           (DataGroupVelocityObject group_velocity)
     | None => ret tt
     end ;;
     match _eigenvectors self with
     | Some eigenvectors =>
         create_dataset "eigenvectors_data" (DataComplex4 eigenvectors)
     | None => ret tt
     end).

Definition write (text : string) : M unit := emit (Write fn_yaml text).

Definition format_vec (w p : nat) (v : vec3) : string :=
  (fmt_f w p (vx v) ++ ", " ++ fmt_f w p (vy v) ++ ", " ++ fmt_f w p (vz v))
  %string.

(** The eigenvector block of band [k] at point [j]. *)
Definition write_eigenvector (natom : Z)
    (eigenvectors : list (list (list complex))) (j k : nat) : M unit :=
  write ("    eigenvector:" ++ nl) ;;
  for_enumerate_
    (fun _ l =>
       write ("    - # atom " ++ fmt_d (Z.of_nat l + 1) ++ nl) ;;
       for_enumerate_
         (fun _ m =>
            at_j <- item eigenvectors j ;;
            row <- item at_j (l * 3 + m) ;;
            c <- item row k ;;
            write ("      - [ " ++ fmt_f 17 14 (real c) ++ ", "
                     ++ fmt_f 17 14 (imag c) ++ " ]" ++ nl))
         [0; 1; 2]%nat)
    (seq 0 (Z.to_nat natom)).

(** The entry of band [k] at point [j] of path [i]. *)
Definition write_band (natom : Z) (weights : list (list R))
    (i j k : nat) (freq : R) : M unit :=
  self <- get ;;
  write ("  - # " ++ fmt_d (Z.of_nat k + 1) ++ nl) ;;
  write ("    frequency: " ++ fmt_f 15 10 freq ++ nl) ;;
  weights_j <- item weights j ;;
  weight <- item weights_j k ;;
  write ("    weight:    " ++ fmt_f 15 10 weight ++ nl) ;;
  match _group_velocity self with
  | Some _ =>
      group_velocities <- getattr "_group_velocities" _group_velocities ;;
      on_path <- item group_velocities i ;;
      at_j <- item on_path j ;;
      gv <- item at_j k ;;
      write "    group_velocity: " ;;
      write ("[ " ++ format_vec 13 7 gv ++ " ]" ++ nl)
  | None => ret tt
  end ;;
  if _is_eigenvectors self
  then match _eigenvectors self with
       | None => raise TypeError
       | Some all_eigenvectors =>
           eigenvectors <- item all_eigenvectors i ;;
           write_eigenvector natom eigenvectors j k
       end
  else ret tt.

(** The block of point [j] of path [i]. *)
Definition write_qpoint (natom : Z) (distances : list R)
    (frequencies : list (list R)) (weights : list (list R))
    (i j : nat) (q : vec3) : M unit :=
  write ("- q-position: [ " ++ format_vec 12 7 q ++ " ]" ++ nl) ;;
  distance <- item distances j ;;
  write ("  distance: " ++ fmt_f 12 7 distance ++ nl) ;;
  write ("  band:" ++ nl) ;;
  frequencies_j <- item frequencies j ;;
  for_enumerate_ (write_band natom weights i j) frequencies_j ;;
  write nl.

Definition write_yaml : M unit :=
  self <- get ;;
  emit (Open fn_yaml) ;;
  let natom := get_number_of_atoms (_cell self) in
  match linalg_inv (get_cell (_cell self)) with
  | None => raise LinAlgError
  | Some lattice =>
      let nqpoint :=
        fold_left (fun n qpoints => (n + Z.of_nat (length qpoints))%Z)
          (_paths self) 0%Z in
      write ("nqpoint: " ++ fmt_d_left7 nqpoint ++ nl) ;;
      write ("npath: " ++ fmt_d_left7 (Z.of_nat (length (_paths self))) ++ nl) ;;
      write ("natom: " ++ fmt_d_left7 natom ++ nl) ;;
      write ("reciprocal_lattice:" ++ nl) ;;
      for_enumerate_
        (fun _ '(vec, axis) =>
           write ("- [ " ++ format_vec 12 8 vec ++ " ] # " ++ fmt_s2 axis ++ nl))
        (combine [row0 (transpose lattice); row1 (transpose lattice);
                  row2 (transpose lattice)]
                 ["a*"; "b*"; "c*"]%string) ;;
      write ("phonon:" ++ nl) ;;
      all_weights <- getattr "_weights" _weights ;;
      all_frequencies <- match _frequencies self with
                         | Some frequencies => ret frequencies
                         | None => raise TypeError
                         end ;;
      for_enumerate_
        (fun i '(qpoints, distances, frequencies, weights) =>
           for_enumerate_
             (write_qpoint natom distances frequencies weights i) qpoints)
        (combine
           (combine (combine (_paths self) (_distances self)) all_frequencies)
           all_weights)
  end.

(* ------------------------------------------------------------------ *)
(** ** What a walk over a path amounts to

    Closed forms of what the loops compute, against which the methods are
    compared below. *)

(** The cumulative distances recorded along [qs], from distance [d] and
    reference point [prev]. *)
Fixpoint walk (inv : mat3) (d : R) (prev : vec3) (qs : list vec3) : list R :=
  match qs with
  | [] => []
  | q :: qs' =>
      let d' := d + norm (dot (vsub q prev) (transpose inv)) in
      d' :: walk inv d' q qs'
  end.

(** The states of the eigenstate extractor after each extraction. *)
Fixpoint es_states (es : ES) (qs : list vec3) : list ES :=
  match qs with
  | [] => []
  | q :: qs' =>
      let es' := fst (extract_eigenstates es q) in
      es' :: es_states es' qs'
  end.

(** The object after [_shift_point q] has run from reference point [prev]
    with inverse lattice [inv]. *)
Definition shifted (inv : mat3) (prev q : vec3) (s : self_t) : self_t :=
  set_lastq (Some q)
    (set_distance
       (_distance s + norm (dot (vsub q prev) (transpose inv))) s).

(** [walked s s']: the object [s'] differs from [s] at most in its
    distance, its reference point and the state of its extractor. *)
Definition walked (s s' : self_t) : Prop :=
  exists d lastq es,
    s' = update d lastq (_special_point s) (_pg_symbol_on_path s) es
           (_group_velocity s) s.

(** The batch call of [_solve_dm_on_path]: its result, the object it
    leaves, its events. *)
Definition batch_result (path : list vec3) (s : self_t)
    : option (list (list vec3)) :=
  match _group_velocity s with
  | Some g => Some (get_group_velocity (set_q_points g path))
  | None => None
  end.

Definition batch_state (path : list vec3) (s : self_t) : self_t :=
  match _group_velocity s with
  | Some g => set_group_velocity (Some (set_q_points g path)) s
  | None => s
  end.

Definition batch_events (path : list vec3) (s : self_t) : list event :=
  match _group_velocity s with
  | Some _ => [SetQPoints path; GetGroupVelocity]
  | None => []
  end.

(** What holds of the local lists and of the object between two paths:
    the special points are 0 and the last distance of every path walked,
    the last of them is the current distance, every path starts at the
    special point before it, and the distances never decrease. *)
Definition band_inv (B : band_locals) (s : self_t) : Prop :=
  _special_point s = 0 :: map (fun ds => last ds 0) (distances B)
  /\ last (_special_point s) 0 = _distance s
  /\ Forall2 (fun ds start => hd_error ds = Some start)
       (distances B) (removelast (_special_point s))
  /\ StronglySorted Rle (concat (distances B) ++ [_distance s])
  /\ StronglySorted Rle (_special_point s).

(** The events of one solved point. *)
Definition point_events (q : vec3) (distance factor : R) (es' : ES)
    (out : eigen_output PrW) : list event :=
  let frequencies := calculate_frequencies (out_eigvals out) factor in
  [ ExtractEigenstates q;
    CalculateDensity distance (get_narms es') frequencies
      (PrWeights (out_pr_weights out)) (Some (out_eigvecs out));
    PrintPartialDensity fn_sf_atoms;
    CalculateDensity distance (get_narms es') frequencies
      (RotPrWeights (slice_columns (get_num_irs es') (out_rot_pr_weights out)))
      None;
    PrintPartialDensity fn_sf_irs ].

(** The local lists after one solved point. *)
Definition push_point (is_eigenvectors : bool) (distance factor : R)
    (es' : ES) (out : eigen_output PrW) (gv_i : option (list vec3))
    (L : path_locals) : path_locals :=
  {| distances_on_path := distances_on_path L ++ [distance];
     frequencies_on_path :=
       frequencies_on_path L
         ++ [calculate_frequencies (out_eigvals out) factor];
     eigvecs_on_path :=
       if is_eigenvectors
       then eigvecs_on_path L ++ [out_eigvecs out] else eigvecs_on_path L;
     pr_weights_on_path := pr_weights_on_path L ++ [out_pr_weights out];
     nqstar_on_path := nqstar_on_path L ++ [get_narms es'];
     gv_on_path :=
       match gv_i with
       | Some v => gv_on_path L ++ [v]
       | None => gv_on_path L
       end;
     rot_pr_weights_on_path :=
       rot_pr_weights_on_path L ++ [out_rot_pr_weights out];
     pg_symbol_on_path := pg_symbol_on_path L ++ [get_pointgroup_symbol es'];
     num_irs_on_path := num_irs_on_path L ++ [get_num_irs es'];
     ir_labels_on_path := ir_labels_on_path L ++ [get_ir_labels es'] |}.

(** The events of a path solved from distance [d], reference point [prev]
    and extractor state [es]. *)
Fixpoint path_events (inv : mat3) (factor d : R) (prev : vec3) (es : ES)
    (qs : list vec3) : list event :=
  match qs with
  | [] => []
  | q :: qs' =>
      let d' := d + norm (dot (vsub q prev) (transpose inv)) in
      let es' := fst (extract_eigenstates es q) in
      point_events q d' factor es' (snd (extract_eigenstates es q))
        ++ path_events inv factor d' q es' qs'
  end.

(** What the density extractor prints: each [print_partial_density]
    prints the latest calculation; here the file it prints to and the
    [eigenvectors_data] of that calculation. *)
Fixpoint printed_with (latest : option (option (list (list complex))))
    (l : list event) : list (string * option (list (list complex))) :=
  match l with
  | [] => []
  | CalculateDensity _ _ _ _ eigenvectors_data :: l' =>
      printed_with (Some eigenvectors_data) l'
  | PrintPartialDensity file :: l' =>
      match latest with
      | Some eigenvectors_data =>
          (file, eigenvectors_data) :: printed_with latest l'
      | None => printed_with latest l'
      end
  | _ :: l' => printed_with latest l'
  end.

(** The distance, the number of arms and the frequencies given to each
    [calculate_density], in order. *)
Fixpoint calculation_keys (l : list event) : list (R * Z * list R) :=
  match l with
  | [] => []
  | CalculateDensity distance narms frequencies _ _ :: l' =>
      (distance, narms, frequencies) :: calculation_keys l'
  | _ :: l' => calculation_keys l'
  end.

(** C7 as the spec states it: one symbol is kept for each path, the one
    read at the last point of the path. *)
Fixpoint last_symbols (es : ES) (paths : list (list vec3))
    : list (list string) :=
  match paths with
  | [] => []
  | path :: paths' =>
      let es' := last (es_states es path) es in
      [get_pointgroup_symbol es'] :: last_symbols es' paths'
  end.

Definition keeps_last_symbol_only (es : ES) (paths : list (list vec3))
    (self : self_t) : Prop :=
  _pg_symbols self = Some (last_symbols es paths).

(** Events of the group-velocity collaborator, of the eigenstate
    extractor, of the density extractor. *)
Definition is_gv_event (e : event) : bool :=
  match e with
  | SetQPoints _ | GetGroupVelocity => true
  | _ => false
  end.

Definition is_extract_event (e : event) : bool :=
  match e with
  | ExtractEigenstates _ => true
  | _ => false
  end.

Definition is_density_event (e : event) : bool :=
  match e with
  | CalculateDensity _ _ _ _ _ | PrintPartialDensity _ => true
  | _ => false
  end.

Definition is_calculate_event (e : event) : bool :=
  match e with
  | CalculateDensity _ _ _ _ _ => true
  | _ => false
  end.

(* ------------------------------------------------------------------ *)
(** ** What a whole construction amounts to *)

(** What the eigenstate extractor returns at each extraction. *)
Fixpoint es_outputs (es : ES) (qs : list vec3) : list (eigen_output PrW) :=
  match qs with
  | [] => []
  | q :: qs' =>
      snd (extract_eigenstates es q)
        :: es_outputs (fst (extract_eigenstates es q)) qs'
  end.

(** The distances of every path, from distance [d]: each path is walked
    from its own first point, from the distance the path before has
    reached. *)
Fixpoint band_walk (inv : mat3) (d : R) (paths : list (list vec3))
    : list (list R) :=
  match paths with
  | [] => []
  | path :: paths' =>
      let w := walk inv d (hd vzero path) path in
      w :: band_walk inv (last w d) paths'
  end.

(** The velocities kept for every path: the first [len(path)] entries of
    the batch the group-velocity object answers for that path. *)
Fixpoint batches (g : GV) (paths : list (list vec3))
    : list (list (list vec3)) :=
  match paths with
  | [] => []
  | path :: paths' =>
      firstn (length path) (get_group_velocity (set_q_points g path))
        :: batches (set_q_points g path) paths'
  end.

(** The events of all paths, between the opening and the closing of the
    two files. *)
Fixpoint band_events (inv : mat3) (factor d : R) (es : ES) (has_gv : bool)
    (paths : list (list vec3)) : list event :=
  match paths with
  | [] => []
  | path :: paths' =>
      (if has_gv then [SetQPoints path; GetGroupVelocity] else [])
        ++ path_events inv factor d (hd vzero path) es path
        ++ band_events inv factor
             (last (walk inv d (hd vzero path) path) d)
             (last (es_states es path) es) has_gv paths'
  end.

(** The files printed to by [print_partial_density], in order. *)
Fixpoint printed_files (l : list event) : list string :=
  match l with
  | [] => []
  | PrintPartialDensity file :: l' => file :: printed_files l'
  | _ :: l' => printed_files l'
  end.

(** The q-points given to [extract_eigenstates], in order. *)
Fixpoint extracted_points (l : list event) : list vec3 :=
  match l with
  | [] => []
  | ExtractEigenstates q :: l' => q :: extracted_points l'
  | _ :: l' => extracted_points l'
  end.

(** The paths given to [set_q_points], in order. *)
Fixpoint batched_paths (l : list event) : list (list vec3) :=
  match l with
  | [] => []
  | SetQPoints path :: l' => path :: batched_paths l'
  | _ :: l' => batched_paths l'
  end.

(** Events on a file itself: opening, closing, writing, creating a
    dataset. *)
Definition is_file_event (e : event) : bool :=
  match e with
  | Open _ | Close _ | Write _ _ | CreateDataset _ _ _ => true
  | _ => false
  end.


(** The texts written, in order. *)
Fixpoint written (l : list event) : list string :=
  match l with
  | [] => []
  | Write _ text :: l' => text :: written l'
  | _ :: l' => written l'
  end.

(** [f] applied to every path, with the state in which the eigenstate
    extractor is when the path starts. *)
Fixpoint per_path {A : Type} (f : ES -> list vec3 -> A) (es : ES)
    (paths : list (list vec3)) : list A :=
  match paths with
  | [] => []
  | path :: paths' =>
      f es path :: per_path f (last (es_states es path) es) paths'
  end.

(** [updated s s']: [s'] is [s] but for the attributes that change while
    the paths are walked. *)
Definition updated (s s' : self_t) : Prop :=
  exists d lastq sp pg es gv, s' = update d lastq sp pg es gv s.


End BandStructure.

(* ------------------------------------------------------------------ *)
(** ** A small instance

    Collaborators with two bands, on which the methods can be run. *)

Module Example.

(** An extractor that counts its extractions; the point group it reports
    depends on the count. *)
Definition two_bands : eigen_output (list R) :=
  {| out_eigvals := [1; 4];
     out_eigvecs := [[Complex 1 0; Complex 0 0]; [Complex 0 0; Complex 1 0]];
     out_pr_weights := [1; 1];
     out_rot_pr_weights := [[1; 0; 0]; [0; 1; 0]] |}.

#[global] Instance eigenstates : Eigenstates nat (list R) :=
  {| extract_eigenstates := fun n _ => (S n, two_bands);
     get_pointgroup_symbol :=
       fun n => match n with 1%nat => "m-3m" | _ => "4mm" end%string;
     get_narms := fun _ => 1%Z;
     get_num_irs := fun _ => 2%Z;
     get_ir_labels := fun _ => ["A1"; "E"]%string |}.

(** A group-velocity object that holds the q-points it was given and
    answers one zero velocity per band and point. *)
#[global] Instance group_velocity : GroupVelocity (list vec3) :=
  {| set_q_points := fun _ path => path;
     get_group_velocity := map (fun _ => [vzero; vzero]) |}.

#[global] Instance formats : Formats :=
  {| fmt_d := fun _ => "<d>"%string;
     fmt_d_left7 := fun _ => "<d>"%string;
     fmt_s2 := fun s => s;
     fmt_f := fun _ _ _ => "<f>"%string |}.

Definition cubic : cell_t := Cell identity 1.

Definition gamma : vec3 := Vec3 0 0 0.
Definition half_x : vec3 := Vec3 (1 / 2) 0 0.

(** One path of two points, no optional feature. *)
Definition plain : result (@self_t nat (list R) (list vec3)) * list event :=
  __init__ [[gamma; half_x]] (DynamicalMatrix false) cubic 0%nat
    false false None 1.

(** The same path with a group-velocity object and eigenvectors kept. *)
Definition full : result (@self_t nat (list R) (list vec3)) * list event :=
  __init__ [[gamma; half_x]] (DynamicalMatrix false) cubic 0%nat
    true false (Some []) 1.

(** One path of one point, two bands, no optional feature. *)
Definition single : result (@self_t nat (list R) (list vec3)) * list event :=
  __init__ [[gamma]] (DynamicalMatrix false) cubic 0%nat
    false false None 1.

(** No path at all, with the non-analytic correction switched on. *)
Definition nac_no_path
    : result (@self_t nat (list R) (list vec3)) * list event :=
  __init__ [] (DynamicalMatrix true) cubic 0%nat false false None 1.

(** One path of two points with the non-analytic correction switched on. *)
Definition nac_one_path
    : result (@self_t nat (list R) (list vec3)) * list event :=
  __init__ [[gamma; half_x]] (DynamicalMatrix true) cubic 0%nat
    false false (Some []) 1.

(** The object just before the second point of the path of [plain]. *)
Definition at_gamma : @self_t nat (list R) (list vec3) :=
  set_lastq (Some gamma)
    (new_self [[gamma; half_x]] (DynamicalMatrix false) cubic 0%nat
       false false None 1).

(** The object of [full] when its path starts. *)
Definition full_at_gamma : @self_t nat (list R) (list vec3) :=
  set_lastq (Some gamma)
    (new_self [[gamma; half_x]] (DynamicalMatrix false) cubic 0%nat
       true false (Some []) 1).

(** A lattice that cannot be inverted. *)
Definition flat : cell_t := Cell (Mat3 vzero vzero vzero) 1.

(** A group-velocity object that answers no velocity at all. *)
Definition silent_group_velocity : GroupVelocity unit :=
  {| set_q_points := fun _ _ => tt;
     get_group_velocity := fun _ => [] |}.

End Example.

(* ------------------------------------------------------------------ *)
(** ** Lists of non-decreasing reals *)

Lemma last_cons {A : Type} (x : A) (l : list A) (d : A) :
  last (x :: l) d = last l x.
Proof.
  revert x d. induction l as [ | y l IH]; intros x d; [reflexivity | ].
  change (last (x :: y :: l) d) with (last (y :: l) d).
  rewrite !IH. reflexivity.
Qed.

Lemma last_default_or_in {A : Type} (l : list A) (d : A) :
  (l = [] /\ last l d = d) \/ In (last l d) l.
Proof.
  induction l as [ | x l IH]; [left; split; reflexivity | right].
  rewrite last_cons. destruct IH as [[-> _] | H].
  - left; reflexivity.
  - right. revert H. generalize d at 1. intros d' H.
    destruct l as [ | y l]; [destruct H | ].
    rewrite last_cons in *. exact H.
Qed.

Lemma sorted_app (a b : list R) :
  StronglySorted Rle a -> StronglySorted Rle b ->
  (forall x y, In x a -> In y b -> x <= y) ->
  StronglySorted Rle (a ++ b).
Proof.
  intros Ha Hb Hab. induction a as [ | x a IH]; [exact Hb | ].
  inversion Ha as [ | ? ? Ha' Hx]; subst. cbn. constructor.
  - apply IH; [exact Ha' | ]. intros; apply Hab; [right | ]; assumption.
  - apply Forall_app. split; [exact Hx | ].
    apply Forall_forall. intros y Hy. apply Hab; [left; reflexivity | exact Hy].
Qed.

Lemma sorted_app_inv (a b : list R) :
  StronglySorted Rle (a ++ b) ->
  StronglySorted Rle a /\ StronglySorted Rle b
  /\ (forall x y, In x a -> In y b -> x <= y).
Proof.
  induction a as [ | x a IH]; cbn; intros H.
  - repeat split; [constructor | exact H | intros ? ? []].
  - inversion H as [ | ? ? H' Hx]; subst.
    destruct (IH H') as (Ha & Hb & Hab).
    apply Forall_app in Hx. destruct Hx as [Hxa Hxb].
    repeat split; [constructor; assumption | exact Hb | ].
    intros u v [<- | Hu] Hv.
    + rewrite Forall_forall in Hxb. apply Hxb; exact Hv.
    + apply Hab; assumption.
Qed.

Lemma sorted_le_last (l : list R) (d x : R) :
  StronglySorted Rle l -> In x l -> x <= last l d.
Proof.
  revert d x. induction l as [ | y l IH]; intros d x Hl Hx; [destruct Hx | ].
  inversion Hl as [ | ? ? Hl' Hy]; subst. rewrite last_cons.
  destruct (last_default_or_in l y) as [[-> _] | Hin].
  - destruct Hx as [<- | []]. cbn. apply Rle_refl.
  - destruct Hx as [<- | Hx].
    + rewrite Forall_forall in Hy. apply Hy; exact Hin.
    + apply IH; assumption.
Qed.

(** A sorted list that ends in [d], followed by a sorted list that starts
    from [d], is sorted up to the last element of the second. *)
Lemma sorted_glue (a w : list R) (d : R) :
  StronglySorted Rle (a ++ [d]) -> StronglySorted Rle (d :: w) ->
  StronglySorted Rle ((a ++ w) ++ [last w d]).
Proof.
  intros Ha Hw.
  apply sorted_app_inv in Ha. destruct Ha as (Ha & _ & Had).
  inversion Hw as [ | ? ? Hw' Hdw]; subst. rewrite Forall_forall in Hdw.
  assert (Hlast : forall y, In y (w ++ [last w d]) -> d <= y).
  { intros y Hy. apply in_app_or in Hy. destruct Hy as [Hy | [<- | []]].
    - apply Hdw; exact Hy.
    - destruct (last_default_or_in w d) as [[_ ->] | Hin];
        [apply Rle_refl | apply Hdw; exact Hin]. }
  rewrite <- app_assoc. apply sorted_app; [exact Ha | | ].
  - apply sorted_app; [exact Hw' | repeat constructor | ].
    intros x y Hx [<- | []]. apply sorted_le_last; assumption.
  - intros x y Hx Hy. apply Rle_trans with d.
    + apply Had; [exact Hx | left; reflexivity].
    + apply Hlast; exact Hy.
Qed.

(* ------------------------------------------------------------------ *)
(** ** The norm and the walk *)

Lemma norm_nonneg (v : vec3) : 0 <= norm v.
Proof. unfold norm. apply sqrt_pos. Qed.

Lemma norm_zero_delta (q : vec3) (m : mat3) : norm (dot (vsub q q) m) = 0.
Proof.
  unfold norm, dot, vsub. cbn.
  replace (vx q - vx q) with 0 by ring.
  replace (vy q - vy q) with 0 by ring.
  replace (vz q - vz q) with 0 by ring.
  transitivity (sqrt 0); [f_equal; ring | apply sqrt_0].
Qed.

Lemma walk_length (inv : mat3) (qs : list vec3) (d : R) (prev : vec3) :
  length (walk inv d prev qs) = length qs.
Proof.
  revert d prev. induction qs as [ | q qs IH]; intros d prev; cbn;
    [reflexivity | ]. rewrite IH. reflexivity.
Qed.

Lemma walk_sorted (inv : mat3) (qs : list vec3) (d : R) (prev : vec3) :
  StronglySorted Rle (d :: walk inv d prev qs).
Proof.
  revert d prev. induction qs as [ | q qs IH]; intros d prev; cbn.
  - repeat constructor.
  - pose proof (norm_nonneg (dot (vsub q prev) (transpose inv))) as Hn.
    specialize (IH (d + norm (dot (vsub q prev) (transpose inv))) q).
    inversion IH as [ | ? ? Hs Hf]; subst.
    constructor; [exact IH | ].
    constructor; [lra | ].
    eapply Forall_impl; [ | exact Hf]. cbn. intros x Hx. lra.
Qed.

Lemma walk_first (inv : mat3) (q : vec3) (qs : list vec3) (d : R) :
  hd_error (walk inv d q (q :: qs)) = Some d.
Proof. cbn. rewrite norm_zero_delta. f_equal. ring. Qed.

Lemma es_states_length {ES PrW : Type} {ops : Eigenstates ES PrW}
    (qs : list vec3) (es : ES) :
  length (es_states es qs) = length qs.
Proof.
  revert es. induction qs as [ | q qs IH]; intros es; cbn;
    [reflexivity | ]. rewrite IH. reflexivity.
Qed.

Lemma es_states_app {ES PrW : Type} {ops : Eigenstates ES PrW}
    (a b : list vec3) (es : ES) :
  es_states es (a ++ b)
  = es_states es a ++ es_states (last (es_states es a) es) b.
Proof.
  revert es. induction a as [ | q a IH]; intros es; cbn [app es_states];
    [reflexivity | ].
  rewrite IH, last_cons. reflexivity.
Qed.

(* ------------------------------------------------------------------ *)
(** ** Running a method

    [run_with H] evaluates the methods in the goal; real arithmetic is
    left as it is, and the inverse of the lattice is given by [H]. *)

Ltac run_with H :=
  repeat (cbv -[Rplus Rminus Rmult Rdiv Ropp Rinv sqrt Rabs IZR Rlt_dec
                linalg_inv identity inverse_of norm dot vsub transpose
                calculate_frequencies get_cell];
          rewrite ?H).

(* ------------------------------------------------------------------ *)
(** ** Properties of the walker and of one point *)

Section Properties.

Context {ES PrW GV : Type}.
Context {eigenstates_ops : Eigenstates ES PrW}.
Context {group_velocity_ops : GroupVelocity GV}.
Context {formats : Formats}.

Abbreviation self_t := (@self_t ES PrW GV).
Abbreviation event := (@event PrW GV).
Abbreviation M := (@M ES PrW GV).

Lemma _shift_point_run (q : vec3) (s : self_t) :
  _shift_point q s =
  match _lastq s with
  | None => (Raise (AttributeError "_lastq"), s, [])
  | Some prev =>
      match linalg_inv (get_cell (_cell s)) with
      | None => (Raise LinAlgError, s, [])
      | Some inv => (Ok tt, shifted inv prev q s, [])
      end
  end.
Proof.
  unfold _shift_point, bind, get, getattr, modify, raise, shifted.
  destruct (_lastq s) as [prev | ]; [ | reflexivity].
  destruct (linalg_inv (get_cell (_cell s))) as [inv | ]; reflexivity.
Qed.

Lemma solve_point_run (nac : bool) (gv : option (list (list vec3)))
    (i : nat) (q : vec3) (L : path_locals) (s : self_t) :
  solve_point nac gv i q L s =
  match _lastq s with
  | None => (Raise (AttributeError "_lastq"), s, [])
  | Some prev =>
      match linalg_inv (get_cell (_cell s)) with
      | None => (Raise LinAlgError, s, [])
      | Some inv =>
          let s1 := shifted inv prev q s in
          if nac
          then (Raise ValueError, s1,
                [Print "ERROR: NAC is not implemented yet for unfolding"])
          else
            let es' := fst (extract_eigenstates (_eigenstates s) q) in
            let out := snd (extract_eigenstates (_eigenstates s) q) in
            let s2 := set_eigenstates es' s1 in
            let l := point_events q (_distance s1) (_factor s) es' out in
            let done gv_i :=
              push_point (_is_eigenvectors s) (_distance s1) (_factor s)
                es' out gv_i L in
            match gv with
            | None => (Ok (done None), s2, l)
            | Some g =>
                match index g i with
                | Some v => (Ok (done (Some v)), s2, l)
                | None => (Raise IndexError, s2, l)
                end
            end
      end
  end.
Proof.
  unfold solve_point. unfold bind at 1. rewrite _shift_point_run.
  destruct (_lastq s) as [prev | ]; [ | reflexivity].
  destruct (linalg_inv (get_cell (_cell s))) as [inv | ]; [ | reflexivity].
  unfold bind, get, emit, raise, ret, modify.
  destruct nac; [reflexivity | ].
  cbn [shifted set_lastq set_distance update _eigenstates _factor
       _is_eigenvectors _distance].
  destruct (extract_eigenstates (_eigenstates s) q) as [es' out].
  destruct gv as [g | ]; [ | reflexivity].
  destruct (index g i); reflexivity.
Qed.

Lemma walked_refl (s : self_t) : walked s s.
Proof.
  exists (_distance s), (_lastq s), (_eigenstates s). destruct s; reflexivity.
Qed.

Lemma walked_trans (s1 s2 s3 : self_t) :
  walked s1 s2 -> walked s2 s3 -> walked s1 s3.
Proof.
  intros (d & lq & es & ->) (d' & lq' & es' & ->).
  exists d', lq', es'. reflexivity.
Qed.

Lemma walked_point (inv : mat3) (prev q : vec3) (es : ES) (s : self_t) :
  walked s (set_eigenstates es (shifted inv prev q s)).
Proof.
  exists (_distance s + norm (dot (vsub q prev) (transpose inv))), (Some q), es.
  reflexivity.
Qed.

Lemma walked_fields (s s' : self_t) :
  walked s s' ->
  _cell s' = _cell s /\ _factor s' = _factor s
  /\ _is_eigenvectors s' = _is_eigenvectors s
  /\ _dynamical_matrix s' = _dynamical_matrix s
  /\ _group_velocity s' = _group_velocity s
  /\ _special_point s' = _special_point s
  /\ _paths s' = _paths s.
Proof.
  intros (d & lq & es & ->). repeat split.
Qed.

(** A run of the loop of [_solve_dm_on_path] that returns. *)
Lemma path_loop_ok (nac : bool) (gv : option (list (list vec3)))
    (qs : list vec3) :
  forall (i : nat) (L L' : path_locals) (s s' : self_t) (l : list event)
         (prev : vec3) (inv : mat3),
    _lastq s = Some prev ->
    linalg_inv (get_cell (_cell s)) = Some inv ->
    for_enumerate (solve_point nac gv) i qs L s = (Ok L', s', l) ->
    walked s s'
    /\ (qs <> [] -> nac = false)
    /\ _distance s' = last (walk inv (_distance s) prev qs) (_distance s)
    /\ _lastq s' = Some (last qs prev)
    /\ _eigenstates s' = last (es_states (_eigenstates s) qs) (_eigenstates s)
    /\ l = path_events inv (_factor s) (_distance s) prev (_eigenstates s) qs
    /\ distances_on_path L'
       = distances_on_path L ++ walk inv (_distance s) prev qs
    /\ pg_symbol_on_path L'
       = pg_symbol_on_path L
           ++ map get_pointgroup_symbol (es_states (_eigenstates s) qs)
    /\ gv_on_path L'
       = gv_on_path L
           ++ match gv with
              | Some g => firstn (length qs) (skipn i g)
              | None => []
              end.
Proof.
  induction qs as [ | q qs IH]; intros i L L' s s' l prev inv Hq Hinv Hrun.
  - cbn in Hrun. unfold ret in Hrun. inversion Hrun; subst.
    cbn. rewrite !app_nil_r. destruct gv; cbn; rewrite ?app_nil_r;
      repeat split; auto using walked_refl; congruence.
  - cbn [for_enumerate] in Hrun. unfold bind in Hrun.
    rewrite solve_point_run, Hq, Hinv in Hrun. cbv zeta in Hrun.
    destruct nac; [discriminate | ].
    set (es' := fst (extract_eigenstates (_eigenstates s) q)) in *.
    set (out := snd (extract_eigenstates (_eigenstates s) q)) in *.
    set (s2 := set_eigenstates es' (shifted inv prev q s)) in *.
    assert (Hgv : exists gv_i,
               for_enumerate (solve_point false gv) (S i) qs
                 (push_point (_is_eigenvectors s)
                    (_distance (shifted inv prev q s)) (_factor s) es' out
                    gv_i L) s2
               = (Ok L', s',
                  skipn 5 l)
               /\ l = point_events q (_distance (shifted inv prev q s))
                        (_factor s) es' out ++ skipn 5 l
               /\ match gv with
                  | Some g => exists v, index g i = Some v /\ gv_i = Some v
                  | None => gv_i = None
                  end).
    { destruct gv as [g | ].
      - destruct (index g i) as [v | ] eqn:Hv; [ | discriminate].
        exists (Some v).
        destruct (for_enumerate _ _ _ _ _) as [[r s3] l3] eqn:Hloop.
        inversion Hrun; subst. cbn. split; [reflexivity | ]. eauto.
      - exists None.
        destruct (for_enumerate _ _ _ _ _) as [[r s3] l3] eqn:Hloop.
        inversion Hrun; subst. cbn. auto. }
    destruct Hgv as (gv_i & Hloop & Hl & Hgvi).
    apply (IH _ _ _ _ _ _ q inv) in Hloop; [ | reflexivity | exact Hinv].
    destruct Hloop as (Hw & _ & Hd & Hlq & Hes & Hlog & HD & HP & HG).
    subst s2.
    cbn [set_eigenstates shifted set_lastq set_distance update _distance
         _factor _eigenstates _lastq push_point distances_on_path
         pg_symbol_on_path gv_on_path] in Hd, Hlq, Hes, Hlog, HD, HP, HG, Hl.
    cbn [walk es_states path_events map].
    fold es'. fold out.
    repeat split.
    + eapply walked_trans; [apply walked_point | exact Hw].
    + rewrite Hd. symmetry. apply last_cons.
    + rewrite Hlq. symmetry. f_equal. apply last_cons.
    + rewrite Hes. symmetry. apply last_cons.
    + rewrite Hl, Hlog. reflexivity.
    + rewrite HD. rewrite <- app_assoc. reflexivity.
    + rewrite HP. rewrite <- app_assoc. reflexivity.
    + rewrite HG.
      destruct gv as [g | ].
      * destruct Hgvi as (v & Hv & ->). rewrite <- app_assoc. f_equal.
        cbn [length firstn app].
        clear - Hv. unfold index in Hv.
        revert g Hv. induction i as [ | i IHi]; intros [ | x g] Hv;
          try discriminate; cbn in *.
        -- inversion Hv; reflexivity.
        -- apply IHi; exact Hv.
      * subst gv_i. reflexivity.
Qed.

Lemma batch_group_velocity_run (path : list vec3) (s : self_t) :
  batch_group_velocity path s
  = (Ok (batch_result path s), batch_state path s, batch_events path s).
Proof.
  unfold batch_group_velocity, batch_result, batch_state, batch_events,
    bind, get, emit, modify, ret.
  destruct (_group_velocity s); reflexivity.
Qed.

Lemma _solve_dm_on_path_run (path : list vec3) (s : self_t) :
  _solve_dm_on_path path s =
  match for_enumerate
          (solve_point (is_nac (_dynamical_matrix s)) (batch_result path s))
          0 path empty_path_locals (batch_state path s)
  with
  | (Ok L, s1, l1) =>
      (Ok L, set_pg_symbol_on_path (Some (pg_symbol_on_path L)) s1,
       batch_events path s ++ l1)
  | (Raise e, s1, l1) => (Raise e, s1, batch_events path s ++ l1)
  end.
Proof.
  unfold _solve_dm_on_path. unfold bind at 1. unfold get at 1.
  unfold bind at 1. rewrite batch_group_velocity_run.
  unfold bind at 1.
  destruct (for_enumerate _ _ _ _ _) as [[[L | e] s1] l1]; cbn.
  - rewrite !app_nil_r. reflexivity.
  - reflexivity.
Qed.

Lemma batch_state_fields (path : list vec3) (s : self_t) :
  _lastq (batch_state path s) = _lastq s
  /\ _cell (batch_state path s) = _cell s
  /\ _distance (batch_state path s) = _distance s
  /\ _eigenstates (batch_state path s) = _eigenstates s
  /\ _factor (batch_state path s) = _factor s
  /\ _special_point (batch_state path s) = _special_point s
  /\ _is_eigenvectors (batch_state path s) = _is_eigenvectors s
  /\ _dynamical_matrix (batch_state path s) = _dynamical_matrix s.
Proof.
  unfold batch_state. destruct (_group_velocity s); repeat split.
Qed.

(** A run of the body of the loop of [_set_band] that returns. *)
Lemma set_band_path_ok (path : list vec3) (B B1 : band_locals)
    (s s1 : self_t) (l : list event) :
  set_band_path path B s = (Ok B1, s1, l) ->
  exists q0 inv,
    hd_error path = Some q0
    /\ linalg_inv (get_cell (_cell s)) = Some inv
    /\ is_nac (_dynamical_matrix s) = false
    /\ distances B1 = distances B ++ [walk inv (_distance s) q0 path]
    /\ pg_symbols B1
       = pg_symbols B
           ++ [map get_pointgroup_symbol (es_states (_eigenstates s) path)]
    /\ _distance s1 = last (walk inv (_distance s) q0 path) (_distance s)
    /\ _special_point s1 = _special_point s ++ [_distance s1]
    /\ _eigenstates s1
       = last (es_states (_eigenstates s) path) (_eigenstates s)
    /\ _cell s1 = _cell s
    /\ _dynamical_matrix s1 = _dynamical_matrix s
    /\ _factor s1 = _factor s
    /\ l = batch_events path s
           ++ path_events inv (_factor s) (_distance s) q0 (_eigenstates s) path.
Proof.
  intros Hrun. unfold set_band_path in Hrun.
  destruct path as [ | q0 rest]; [discriminate | ].
  unfold bind at 1 in Hrun. unfold ret at 1 in Hrun.
  unfold bind at 1 in Hrun. unfold _set_initial_point, modify at 1 in Hrun.
  unfold bind at 1 in Hrun. rewrite _solve_dm_on_path_run in Hrun.
  set (s0 := set_lastq (Some q0) s) in *.
  destruct (batch_state_fields (q0 :: rest) s0)
    as (Hlq & Hcell & Hd & Hes & Hf & Hsp & Hie & Hdm).
  destruct (for_enumerate _ _ _ _ _) as [[[L | e] s2] l2] eqn:Hloop;
    [ | discriminate].
  destruct (linalg_inv (get_cell (_cell s))) as [inv | ] eqn:Hinv.
  - apply (path_loop_ok _ _ _ _ _ _ _ _ _ q0 inv) in Hloop;
      [ | rewrite Hlq; reflexivity | rewrite Hcell; exact Hinv].
    destruct Hloop as (Hw & Hnac & Hd2 & _ & Hes2 & Hlog & HD & HP & _).
    apply walked_fields in Hw.
    destruct Hw as (Wc & Wf & Wi & Wd & Wg & Ws & _).
    rewrite Hd, Hes, Hf in *. rewrite Hcell in Wc. rewrite Hsp in Ws.
    rewrite Hdm in Wd.
    unfold bind, get_pg_symbol_on_path, getattr, get, modify, ret in Hrun.
    cbn in Hrun. inversion Hrun; subst; clear Hrun.
    exists q0, inv. cbn.
    rewrite Hd2, Hes2, HD, HP, Wc, Wd, Wf, Ws.
    repeat split; try reflexivity.
    + apply Hnac. discriminate.
    + rewrite !app_nil_r. reflexivity.
  - exfalso. cbn [for_enumerate] in Hloop. unfold bind in Hloop.
    rewrite solve_point_run, Hlq, Hcell in Hloop. cbn in Hloop.
    rewrite Hinv in Hloop. discriminate.
Qed.

(** The invariant holds when [_set_band] starts. *)
Lemma band_inv_new (paths : list (list vec3))
    (dynamical_matrix : dynamical_matrix_t) (cell : cell_t) (es : ES)
    (is_eigenvectors is_band_connection : bool) (gv : option GV)
    (factor : R) :
  band_inv (@empty_band_locals PrW)
    (new_self paths dynamical_matrix cell es is_eigenvectors
       is_band_connection gv factor).
Proof.
  unfold band_inv. cbn. repeat split; repeat constructor.
Qed.

(** The invariant is kept by one path. *)
Lemma band_inv_step (path : list vec3) (B B1 : band_locals)
    (s s1 : self_t) (l : list event) :
  set_band_path path B s = (Ok B1, s1, l) ->
  band_inv B s -> band_inv B1 s1.
Proof.
  intros Hrun (Hsp & Hlast & Hhd & Hsorted & Hsps).
  apply set_band_path_ok in Hrun.
  destruct Hrun as (q0 & inv & Hq0 & Hinv & _ & HD & _ & Hd & Hsp1 & _).
  destruct path as [ | q rest]; [discriminate | ].
  cbn in Hq0. inversion Hq0; subst q0; clear Hq0.
  pose proof (walk_sorted inv (q :: rest) (_distance s) q) as Hw.
  pose proof (walk_first inv q rest (_distance s)) as Hfirst.
  remember (walk inv (_distance s) q (q :: rest)) as w eqn:Hwdef.
  assert (Hne : exists x w', w = x :: w') by (subst w; cbn; eauto).
  destruct Hne as (x & w' & Hwx).
  unfold band_inv. rewrite Hsp1, HD, Hd. repeat split.
  - rewrite Hsp, map_app. cbn. do 2 f_equal.
    rewrite Hwx, !last_cons. reflexivity.
  - apply last_last.
  - rewrite removelast_last.
    assert (Hsp_ne : _special_point s <> []) by (rewrite Hsp; discriminate).
    rewrite (app_removelast_last 0 Hsp_ne), Hlast.
    apply Forall2_app; [exact Hhd | ].
    constructor; [ | constructor]. exact Hfirst.
  - rewrite concat_app. cbn. rewrite app_nil_r.
    apply sorted_glue; assumption.
  - apply sorted_app; [exact Hsps | repeat constructor | ].
    intros u v Hu [<- | []].
    apply Rle_trans with (_distance s).
    + rewrite <- Hlast. apply sorted_le_last; assumption.
    + apply StronglySorted_inv in Hw. destruct Hw as [_ Hf].
      destruct (last_default_or_in w (_distance s)) as [[_ ->] | Hin];
        [apply Rle_refl | ].
      rewrite Forall_forall in Hf. apply Hf; exact Hin.
Qed.

(** A run of the loop of [_set_band] that returns. *)
Lemma band_loop_ok (paths : list (list vec3)) :
  forall (B B' : band_locals) (s s' : self_t) (l : list event),
    for_each set_band_path paths B s = (Ok B', s', l) ->
    (band_inv B s -> band_inv B' s')
    /\ Forall (fun path => path <> []) paths
    /\ map (@length R) (distances B')
       = map (@length R) (distances B) ++ map (@length vec3) paths
    /\ map (@length string) (pg_symbols B')
       = map (@length string) (pg_symbols B) ++ map (@length vec3) paths
    /\ concat (pg_symbols B')
       = concat (pg_symbols B)
           ++ map get_pointgroup_symbol
                (es_states (_eigenstates s) (concat paths)).
Proof.
  induction paths as [ | path paths IH]; intros B B' s s' l Hrun.
  - cbn in Hrun. unfold ret in Hrun. inversion Hrun; subst.
    cbn. rewrite !app_nil_r. split; [exact (fun H => H) | ]. repeat split; auto.
  - cbn [for_each] in Hrun. unfold bind in Hrun.
    destruct (set_band_path path B s) as [[[B1 | e] s1] l1] eqn:Hstep;
      [ | discriminate].
    destruct (for_each set_band_path paths B1 s1) as [[r s2] l2] eqn:Hloop.
    inversion Hrun; subst; clear Hrun.
    pose proof (band_inv_step _ _ _ _ _ _ Hstep) as Hinv1.
    apply set_band_path_ok in Hstep.
    destruct Hstep as (q0 & inv & Hq0 & _ & _ & HD & HP & _ & _ & Hes & _).
    apply IH in Hloop. destruct Hloop as (Hinv & Hne & HLd & HLp & Hpg).
    split; [ | split; [ | split; [ | split]]].
    + intros HB. apply Hinv, Hinv1, HB.
    + constructor; [ | exact Hne]. intros ->. discriminate.
    + rewrite HLd, HD, map_app. cbn. rewrite walk_length, <- app_assoc.
      reflexivity.
    + rewrite HLp, HP, map_app. cbn.
      rewrite length_map, es_states_length, <- app_assoc. reflexivity.
    + rewrite Hpg, HP, concat_app. cbn [concat].
      rewrite app_nil_r, es_states_app, map_app, Hes, <- app_assoc.
      reflexivity.
Qed.

(** A construction that returns an object has walked every path. *)
Lemma init_ok (paths : list (list vec3))
    (dynamical_matrix : dynamical_matrix_t) (cell : cell_t) (es : ES)
    (is_eigenvectors is_band_connection : bool) (gv : option GV)
    (factor : R) (self : self_t) (log : list event) :
  __init__ paths dynamical_matrix cell es is_eigenvectors
    is_band_connection gv factor = (Ok self, log) ->
  exists B s' l,
    for_each set_band_path paths empty_band_locals
      (new_self paths dynamical_matrix cell es is_eigenvectors
         is_band_connection gv factor) = (Ok B, s', l)
    /\ self = assign_band B s'
    /\ log = Open fn_sf_atoms
               :: (Open fn_sf_irs :: l ++ [Close fn_sf_irs])
               ++ [Close fn_sf_atoms].
Proof.
  unfold __init__, with_open, _set_band. unfold bind at 1. unfold get at 1.
  unfold bind at 1. cbn [_paths new_self].
  destruct (for_each _ _ _ _) as [[[B | e] s'] l]; cbn; intros H;
    inversion H; subst.
  exists B, s', l. rewrite !app_nil_r. auto.
Qed.

Lemma Forall2_nth_error {A B : Type} (P : A -> B -> Prop)
    (l1 : list A) (l2 : list B) (k : nat) (a : A) :
  Forall2 P l1 l2 -> nth_error l1 k = Some a ->
  exists b, nth_error l2 k = Some b /\ P a b.
Proof.
  intros H. revert k. induction H as [ | x y l1 l2 Hxy _ IH]; intros k Hk.
  - destruct k; discriminate.
  - destruct k as [ | k]; cbn in *.
    + inversion Hk; subst. eauto.
    + apply IH; exact Hk.
Qed.

(* ------------------------------------------------------------------ *)
(** ** The distance *)

(** C1. [_set_initial_point] assigns the reference point and nothing else,
    so it leaves the distance as it is; [_shift_point q] adds to the
    distance the Euclidean norm of [(q - previous)] times the transposed
    inverse of the lattice of the ideal primitive cell, and makes [q] the
    reference point; that increment is never negative; and the distances
    recorded by a whole construction, all paths put end to end, never
    decrease. *)
Theorem walker_distance_is_cumulative_norm :
  (forall (q : vec3) (s : self_t),
      _set_initial_point q s = (Ok tt, set_lastq (Some q) s, [])
      /\ _distance (set_lastq (Some q) s) = _distance s)
  /\ (forall (q prev : vec3) (inv : mat3) (s : self_t),
        _lastq s = Some prev ->
        linalg_inv (get_cell (_cell s)) = Some inv ->
        let increment := norm (dot (vsub q prev) (transpose inv)) in
        _shift_point q s
        = (Ok tt,
           set_lastq (Some q) (set_distance (_distance s + increment) s), [])
        /\ 0 <= increment
        /\ _distance s <= _distance s + increment)
  /\ (forall (paths : list (list vec3))
             (dynamical_matrix : dynamical_matrix_t) (cell : cell_t)
             (es : ES) (is_eigenvectors is_band_connection : bool)
             (gv : option GV) (factor : R) (self : self_t)
             (log : list event),
        __init__ paths dynamical_matrix cell es is_eigenvectors
          is_band_connection gv factor = (Ok self, log) ->
        Sorted Rle (0 :: concat (_distances self))).
Proof.
  split; [ | split].
  - intros q s. split; reflexivity.
  - intros q prev inv s Hq Hinv increment.
    pose proof (norm_nonneg (dot (vsub q prev) (transpose inv))) as Hn.
    fold increment in Hn.
    rewrite _shift_point_run, Hq, Hinv. repeat split; [exact Hn | lra].
  - intros paths dm cell es ie ibc gv factor self log Hrun.
    apply init_ok in Hrun. destruct Hrun as (B & s' & l & Hloop & -> & _).
    apply band_loop_ok in Hloop. destruct Hloop as (Hinv & _).
    destruct (Hinv (band_inv_new _ _ _ _ _ _ _ _))
      as (Hsp & _ & Hhd & Hsorted & _).
    cbn [_distances assign_band].
    apply StronglySorted_Sorted.
    apply sorted_app_inv in Hsorted. destruct Hsorted as (Hs & _ & _).
    constructor; [exact Hs | ].
    apply Forall_forall. intros x Hx.
    destruct (distances B) as [ | ds rest] eqn:HB; [destruct Hx | ].
    rewrite Hsp in Hhd.
    change (map (fun ds0 : list R => last ds0 0) (ds :: rest))
      with (last ds 0 :: map (fun ds0 : list R => last ds0 0) rest) in Hhd.
    change (removelast
              (0 :: last ds 0 :: map (fun ds0 : list R => last ds0 0) rest))
      with (0 :: removelast
                   (last ds 0 :: map (fun ds0 : list R => last ds0 0) rest))
      in Hhd.
    apply Forall2_cons_iff in Hhd. destruct Hhd as [Hds _].
    destruct ds as [ | d0 ds]; [discriminate | ].
    cbn in Hds. assert (d0 = 0) by congruence.
    subst d0. cbn in Hs. cbn in Hx.
    apply StronglySorted_inv in Hs. destruct Hs as [_ Hf].
    destruct Hx as [<- | Hx]; [apply Rle_refl | ].
    rewrite Forall_forall in Hf. apply Hf; exact Hx.
Qed.

(** C2. When a construction returns, there is one special point more than
    there are paths; the first is 0, the others are the distance at the
    end of each path, in order; they never decrease. *)
Theorem special_points_mark_path_ends (paths : list (list vec3))
    (dynamical_matrix : dynamical_matrix_t) (cell : cell_t) (es : ES)
    (is_eigenvectors is_band_connection : bool) (gv : option GV)
    (factor : R) (self : self_t) (log : list event) :
  __init__ paths dynamical_matrix cell es is_eigenvectors
    is_band_connection gv factor = (Ok self, log) ->
  length (_special_point self) = S (length paths)
  /\ nth_error (_special_point self) 0 = Some 0
  /\ _special_point self
     = 0 :: map (fun ds => last ds 0) (_distances self)
  /\ map (@length R) (_distances self) = map (@length vec3) paths
  /\ Forall (fun path => path <> []) paths
  /\ Sorted Rle (_special_point self).
Proof.
  intros Hrun.
  apply init_ok in Hrun. destruct Hrun as (B & s' & l & Hloop & -> & _).
  apply band_loop_ok in Hloop. destruct Hloop as (Hinv & Hne & HL & _).
  destruct (Hinv (band_inv_new _ _ _ _ _ _ _ _)) as (Hsp & _ & _ & _ & Hs).
  cbn [_special_point _distances assign_band]. cbn in HL.
  repeat split.
  - rewrite Hsp. cbn. rewrite length_map.
    rewrite <- (length_map (@length R)), HL, length_map. reflexivity.
  - rewrite Hsp. reflexivity.
  - exact Hsp.
  - exact HL.
  - exact Hne.
  - apply StronglySorted_Sorted. exact Hs.
Qed.

(** C9. When a construction returns, the distance recorded for the first
    point of a path is the special point that precedes the path: 0 for the
    first path, the distance at the end of the path before for the others.
    The first step of a path is a step from its first point to itself. *)
Theorem path_starts_at_preceding_special_point (paths : list (list vec3))
    (dynamical_matrix : dynamical_matrix_t) (cell : cell_t) (es : ES)
    (is_eigenvectors is_band_connection : bool) (gv : option GV)
    (factor : R) (self : self_t) (log : list event) :
  __init__ paths dynamical_matrix cell es is_eigenvectors
    is_band_connection gv factor = (Ok self, log) ->
  (forall (k : nat) (ds : list R),
      nth_error (_distances self) k = Some ds ->
      exists start,
        nth_error (_special_point self) k = Some start
        /\ hd_error ds = Some start)
  /\ (forall ds, nth_error (_distances self) 0 = Some ds ->
             hd_error ds = Some 0)
  /\ (forall (q : vec3) (m : mat3), norm (dot (vsub q q) m) = 0).
Proof.
  intros Hrun.
  apply init_ok in Hrun. destruct Hrun as (B & s' & l & Hloop & -> & _).
  apply band_loop_ok in Hloop. destruct Hloop as (Hinv & _).
  destruct (Hinv (band_inv_new _ _ _ _ _ _ _ _)) as (Hsp & _ & Hhd & _).
  cbn [_special_point _distances assign_band].
  assert (Hk : forall (k : nat) (ds : list R),
             nth_error (distances B) k = Some ds ->
             exists start,
               nth_error (_special_point s') k = Some start
               /\ hd_error ds = Some start).
  { intros k ds Hds.
    destruct (Forall2_nth_error _ _ _ _ _ Hhd Hds) as (start & Hst & Hfirst).
    exists start. split; [ | exact Hfirst].
    assert (Hne : _special_point s' <> []) by (rewrite Hsp; discriminate).
    rewrite (app_removelast_last 0 Hne).
    rewrite nth_error_app1; [exact Hst | ].
    apply nth_error_Some. rewrite Hst. discriminate. }
  split; [exact Hk | split].
  - intros ds Hds. destruct (Hk 0%nat ds Hds) as (start & Hst & ->).
    rewrite Hsp in Hst. cbn in Hst. symmetry. exact Hst.
  - apply norm_zero_delta.
Qed.

(* ------------------------------------------------------------------ *)
(** ** The density extractor *)

(** The events of a point at which the extractor has been called. *)
Lemma solved_point_events (nac : bool) (gv : option (list (list vec3)))
    (i : nat) (q : vec3) (L : path_locals) (s s' : self_t)
    (r : result path_locals) (l : list event) :
  solve_point nac gv i q L s = (r, s', l) ->
  In (ExtractEigenstates q) l ->
  l = point_events q (_distance s') (_factor s)
        (fst (extract_eigenstates (_eigenstates s) q))
        (snd (extract_eigenstates (_eigenstates s) q))
  /\ _eigenstates s' = fst (extract_eigenstates (_eigenstates s) q)
  /\ (forall L', r = Ok L' ->
        last (distances_on_path L') 0 = _distance s'
        /\ last (frequencies_on_path L') []
           = calculate_frequencies
               (out_eigvals (snd (extract_eigenstates (_eigenstates s) q)))
               (_factor s)).
Proof.
  rewrite solve_point_run. intros Hrun Hin.
  destruct (_lastq s) as [prev | ].
  2: { inversion Hrun; subst. destruct Hin. }
  destruct (linalg_inv (get_cell (_cell s))) as [inv | ].
  2: { inversion Hrun; subst. destruct Hin. }
  cbv zeta in Hrun. destruct nac.
  { inversion Hrun; subst. destruct Hin as [Hin | []]. discriminate. }
  destruct gv as [g | ]; [destruct (index g i) | ];
    inversion Hrun; subst; clear Hrun; cbn;
    (split; [reflexivity | split; [reflexivity | ]]);
    intros L' HL; inversion HL; subst; cbn; rewrite !last_last; auto.
Qed.

Lemma calculation_keys_app (l1 l2 : list event) :
  calculation_keys (l1 ++ l2) = calculation_keys l1 ++ calculation_keys l2.
Proof.
  induction l1 as [ | e l1 IH]; [reflexivity | ].
  destruct e; cbn; rewrite ?IH; reflexivity.
Qed.

(** The calculations of a run of the loop over the points that returns:
    two for each point, with what is recorded for the point. *)
Lemma path_loop_density (nac : bool) (gv : option (list (list vec3)))
    (qs : list vec3) :
  forall (i : nat) (L L' : path_locals) (s s' : self_t) (l : list event),
    for_enumerate (solve_point nac gv) i qs L s = (Ok L', s', l) ->
    exists ds ns fs,
      distances_on_path L' = distances_on_path L ++ ds
      /\ nqstar_on_path L' = nqstar_on_path L ++ ns
      /\ frequencies_on_path L' = frequencies_on_path L ++ fs
      /\ length ds = length qs /\ length ns = length qs
      /\ length fs = length qs
      /\ calculation_keys l
         = flat_map (fun key => [key; key]) (combine (combine ds ns) fs).
Proof.
  induction qs as [ | q qs IH]; intros i L L' s s' l Hrun.
  - cbn in Hrun. unfold ret in Hrun. inversion Hrun; subst.
    exists [], [], []. rewrite !app_nil_r. repeat split.
  - cbn [for_enumerate] in Hrun. unfold bind in Hrun.
    rewrite solve_point_run in Hrun.
    destruct (_lastq s) as [prev | ]; [ | discriminate].
    destruct (linalg_inv (get_cell (_cell s))) as [inv | ]; [ | discriminate].
    cbv zeta in Hrun. destruct nac; [discriminate | ].
    set (es' := fst (extract_eigenstates (_eigenstates s) q)) in *.
    set (out := snd (extract_eigenstates (_eigenstates s) q)) in *.
    set (d := _distance (shifted inv prev q s)) in *.
    assert (Hnext : exists gv_i l2,
               for_enumerate (solve_point false gv) (S i) qs
                 (push_point (_is_eigenvectors s) d (_factor s) es' out gv_i L)
                 (set_eigenstates es' (shifted inv prev q s))
               = (Ok L', s', l2)
               /\ l = point_events q d (_factor s) es' out ++ l2).
    { destruct gv as [g | ]; [destruct (index g i) as [v | ] | ];
        try discriminate;
        destruct (for_enumerate _ _ _ _ _) as [[r2 s2] l2] eqn:Hloop;
        inversion Hrun; subst; eauto. }
    destruct Hnext as (gv_i & l2 & Hloop & ->).
    apply IH in Hloop.
    destruct Hloop as (ds & ns & fs & HD & HN & HF & Hd & Hn & Hf & Hk).
    cbn [push_point distances_on_path nqstar_on_path frequencies_on_path]
      in HD, HN, HF.
    exists (d :: ds), (get_narms es' :: ns),
      (calculate_frequencies (out_eigvals out) (_factor s) :: fs).
    rewrite HD, HN, HF, <- !app_assoc, calculation_keys_app, Hk.
    cbn. rewrite Hd, Hn, Hf. repeat split.
Qed.

(** C4. At every q-point at which the eigenstates are extracted, the
    density extractor is called exactly twice: a calculation with the
    partial weights, printed to the atoms file, then a calculation with the
    rotated partial weights cut to their first [num_irs] columns, printed
    to the irreps file; both calculations get the distance just reached,
    the number of arms and the frequencies of that point. Over a path that
    is solved, that makes two calculations for each point, with the
    distance, the number of arms and the frequencies recorded for it. *)
Theorem density_calculated_twice_per_point :
  (forall (nac : bool) (gv : option (list (list vec3))) (i : nat)
          (q : vec3) (L : path_locals) (s s' : self_t)
          (r : result path_locals) (l : list event),
      solve_point nac gv i q L s = (r, s', l) ->
      In (ExtractEigenstates q) l ->
      let es' := fst (extract_eigenstates (_eigenstates s) q) in
      let out := snd (extract_eigenstates (_eigenstates s) q) in
      let frequencies := calculate_frequencies (out_eigvals out) (_factor s) in
      filter is_density_event l
      = [ CalculateDensity (_distance s') (get_narms es') frequencies
            (PrWeights (out_pr_weights out)) (Some (out_eigvecs out));
          PrintPartialDensity fn_sf_atoms;
          CalculateDensity (_distance s') (get_narms es') frequencies
            (RotPrWeights
               (slice_columns (get_num_irs es') (out_rot_pr_weights out)))
            None;
          PrintPartialDensity fn_sf_irs ]
      /\ length (filter is_calculate_event l) = 2%nat
      /\ (forall L', r = Ok L' ->
            last (distances_on_path L') 0 = _distance s'
            /\ last (frequencies_on_path L') [] = frequencies))
  /\ (forall (path : list vec3) (s s' : self_t) (L : path_locals)
             (l : list event),
        _solve_dm_on_path path s = (Ok L, s', l) ->
        length (distances_on_path L) = length path
        /\ length (nqstar_on_path L) = length path
        /\ length (frequencies_on_path L) = length path
        /\ calculation_keys l
           = flat_map (fun key => [key; key])
               (combine
                  (combine (distances_on_path L) (nqstar_on_path L))
                  (frequencies_on_path L))).
Proof.
  split.
  - intros nac gv i q L s s' r l Hrun Hin es' out frequencies.
    destruct (solved_point_events _ _ _ _ _ _ _ _ _ Hrun Hin) as (-> & _ & HL).
    repeat split; apply HL; assumption.
  - intros path s s' L l. rewrite _solve_dm_on_path_run. intros Hrun.
    destruct (for_enumerate _ _ _ _ _) as [[[L1 | e] s1] l1] eqn:Hloop;
      [ | discriminate].
    inversion Hrun; subst; clear Hrun.
    apply path_loop_density in Hloop.
    destruct Hloop as (ds & ns & fs & HD & HN & HF & Hd & Hn & Hf & Hk).
    cbn in HD, HN, HF. rewrite HD, HN, HF, calculation_keys_app, Hk.
    repeat split; try assumption.
    unfold batch_events. destruct (_group_velocity s); reflexivity.
Qed.

(** C10. Of the two calculations made at a point, the one printed to the
    atoms file is given the eigenvectors of the point, the one printed to
    the irreps file is given no eigenvectors. *)
Theorem eigenvectors_go_to_atoms_calculation_only (nac : bool)
    (gv : option (list (list vec3))) (i : nat) (q : vec3)
    (L : path_locals) (s s' : self_t) (r : result path_locals)
    (l : list event) :
  solve_point nac gv i q L s = (r, s', l) ->
  In (ExtractEigenstates q) l ->
  printed_with None l
  = [ (fn_sf_atoms,
       Some (out_eigvecs (snd (extract_eigenstates (_eigenstates s) q))));
      (fn_sf_irs, None) ].
Proof.
  intros Hrun Hin.
  destruct (solved_point_events _ _ _ _ _ _ _ _ _ Hrun Hin) as (-> & _).
  reflexivity.
Qed.

(* ------------------------------------------------------------------ *)
(** ** The group velocities *)

(** The loop over the points never calls the group-velocity object, and
    when it returns it has stored the entries [i], [i + 1], ... of [gv]. *)
Lemma path_loop_group_velocity (nac : bool)
    (gv : option (list (list vec3))) (qs : list vec3) :
  forall (i : nat) (L : path_locals) (s s' : self_t)
         (r : result path_locals) (l : list event),
    for_enumerate (solve_point nac gv) i qs L s = (r, s', l) ->
    filter is_gv_event l = []
    /\ (forall L', r = Ok L' ->
          match gv with
          | Some g =>
              gv_on_path L' = gv_on_path L ++ firstn (length qs) (skipn i g)
              /\ (i + length qs <= length g \/ qs = [])%nat
          | None => gv_on_path L' = gv_on_path L
          end).
Proof.
  induction qs as [ | q qs IH]; intros i L s s' r l Hrun.
  - cbn in Hrun. unfold ret in Hrun. inversion Hrun; subst.
    split; [reflexivity | ]. intros L' HL. inversion HL; subst.
    destruct gv; cbn; rewrite ?app_nil_r; auto.
  - cbn [for_enumerate] in Hrun. unfold bind in Hrun.
    rewrite solve_point_run in Hrun.
    destruct (_lastq s) as [prev | ].
    2: { inversion Hrun; subst. split; [reflexivity | discriminate]. }
    destruct (linalg_inv (get_cell (_cell s))) as [inv | ].
    2: { inversion Hrun; subst. split; [reflexivity | discriminate]. }
    cbv zeta in Hrun. destruct nac.
    { inversion Hrun; subst. split; [reflexivity | discriminate]. }
    destruct gv as [g | ].
    + destruct (index g i) as [v | ] eqn:Hv.
      2: { inversion Hrun; subst. split; [reflexivity | discriminate]. }
      destruct (for_enumerate _ _ _ _ _) as [[r2 s2] l2] eqn:Hloop.
      inversion Hrun; subst; clear Hrun.
      apply IH in Hloop. destruct Hloop as (Hno & HL).
      split; [cbn; exact Hno | ].
      intros L' Hr. destruct (HL L' Hr) as (HG & Hlen).
      cbn [push_point gv_on_path] in HG.
      assert (Hskip : skipn i g = v :: skipn (S i) g /\ (i < length g)%nat).
      { clear - Hv. unfold index in Hv. revert g Hv.
        induction i as [ | i IHi]; intros [ | x g] Hv; try discriminate;
          cbn in *.
        - inversion Hv; subst. split; [reflexivity | lia].
        - destruct (IHi g Hv) as (He & Hl). split; [exact He | lia]. }
      destruct Hskip as (Hskip & Hlt).
      split.
      * rewrite HG, <- app_assoc. cbn [length firstn]. rewrite Hskip.
        reflexivity.
      * left. cbn [length]. destruct Hlen as [Hlen | ->]; cbn; lia.
    + destruct (for_enumerate _ _ _ _ _) as [[r2 s2] l2] eqn:Hloop.
      inversion Hrun; subst; clear Hrun.
      apply IH in Hloop. destruct Hloop as (Hno & HL).
      split; [cbn; exact Hno | ].
      intros L' Hr. apply HL in Hr. exact Hr.
Qed.

(** C8. A path calls the group-velocity object if and only if there is
    one. When there is one, the path opens with one batch call (the
    q-points of the whole path are set, the velocities are fetched),
    nothing after it calls the object again, so the batch precedes every
    extraction of the path; and the velocity stored for the i-th point is
    the i-th entry of the batch. When there is none, no velocity is
    stored. *)
Theorem group_velocity_batched_once_per_path (path : list vec3)
    (s s' : self_t) (r : result path_locals) (l : list event) :
  _solve_dm_on_path path s = (r, s', l) ->
  (filter is_gv_event l <> [] <-> _group_velocity s <> None)
  /\ (forall g, _group_velocity s = Some g ->
        exists rest,
          l = SetQPoints path :: GetGroupVelocity :: rest
          /\ filter is_gv_event rest = []
          /\ filter is_extract_event l = filter is_extract_event rest
          /\ (forall L, r = Ok L ->
                length (gv_on_path L) = length path
                /\ forall i, (i < length path)%nat ->
                      nth_error (gv_on_path L) i
                      = nth_error (get_group_velocity (set_q_points g path)) i))
  /\ (_group_velocity s = None ->
        forall L, r = Ok L -> gv_on_path L = []).
Proof.
  rewrite _solve_dm_on_path_run. intros Hrun.
  destruct (for_enumerate _ _ _ _ _) as [[r1 s1] l1] eqn:Hloop.
  apply path_loop_group_velocity in Hloop. destruct Hloop as (Hno & HL).
  assert (Hl : l = batch_events path s ++ l1)
    by (destruct r1; inversion Hrun; reflexivity).
  assert (Hr : forall L, r = Ok L -> r1 = Ok L)
    by (intros L ->; destruct r1; inversion Hrun; reflexivity).
  clear Hrun. subst l. unfold batch_events, batch_result in *.
  destruct (_group_velocity s) as [g | ]; cbn [app filter is_gv_event].
  - split; [split; intros; discriminate | ].
    split; [ | intros; discriminate].
    intros g' Hg. inversion Hg; subst g'; clear Hg.
    exists l1. repeat split; try assumption.
    + destruct (HL L (Hr L H)) as (HG & Hlen). rewrite HG. cbn.
      rewrite length_firstn. destruct Hlen as [Hlen | ->]; cbn in *; lia.
    + intros i Hi. destruct (HL L (Hr L H)) as (HG & _). rewrite HG. cbn.
      rewrite nth_error_firstn.
      apply Nat.ltb_lt in Hi. rewrite Hi. reflexivity.
  - rewrite Hno. split; [split; intros H; exfalso; apply H; reflexivity | ].
    split; [intros; discriminate | ].
    intros _ L HrL. apply (HL L (Hr L HrL)).
Qed.

(* ------------------------------------------------------------------ *)
(** ** The point-group symbols *)

(** C7, as the code has it. When a construction returns, the point-group
    symbols it keeps for a path are as many as the points of the path: the
    symbol read after each extraction, in order, and not the last one
    alone. *)
Theorem pg_symbols_kept_for_every_point (paths : list (list vec3))
    (dynamical_matrix : dynamical_matrix_t) (cell : cell_t) (es : ES)
    (is_eigenvectors is_band_connection : bool) (gv : option GV)
    (factor : R) (self : self_t) (log : list event) :
  __init__ paths dynamical_matrix cell es is_eigenvectors
    is_band_connection gv factor = (Ok self, log) ->
  exists symbols,
    _pg_symbols self = Some symbols
    /\ map (@length string) symbols = map (@length vec3) paths
    /\ concat symbols
       = map get_pointgroup_symbol (es_states es (concat paths)).
Proof.
  intros Hrun.
  apply init_ok in Hrun. destruct Hrun as (B & s' & l & Hloop & -> & _).
  apply band_loop_ok in Hloop. destruct Hloop as (_ & _ & _ & HL & HC).
  exists (pg_symbols B). repeat split; assumption.
Qed.

(* ------------------------------------------------------------------ *)
(** ** The non-analytic correction *)

(** C3, as the code has it. With the non-analytic correction switched on,
    a first path that has a point, and an invertible lattice, the
    construction raises [ValueError] at the first point of the first path:
    after the two files have been opened, after the batch call to the
    group-velocity object if there is one, and after the walker has been
    shifted by the null first step; before any extraction of eigenstates
    and before any call to the density extractor. The two files are closed
    with nothing printed to them; the distance is 0, the special points
    are [0], the extractor is as it was given. *)
Theorem nac_raises_at_first_point (q0 : vec3) (rest : list vec3)
    (others : list (list vec3)) (dynamical_matrix : dynamical_matrix_t)
    (cell : cell_t) (es : ES) (is_eigenvectors is_band_connection : bool)
    (gv : option GV) (factor : R) (inv : mat3) :
  is_nac dynamical_matrix = true ->
  linalg_inv (get_cell cell) = Some inv ->
  let paths := (q0 :: rest) :: others in
  let batch :=
    match gv with
    | Some _ => [SetQPoints (q0 :: rest); GetGroupVelocity]
    | None => []
    end in
  let message := Print "ERROR: NAC is not implemented yet for unfolding" in
  __init__ paths dynamical_matrix cell es is_eigenvectors
    is_band_connection gv factor
  = (Raise ValueError,
     [Open fn_sf_atoms; Open fn_sf_irs] ++ batch
       ++ [message; Close fn_sf_irs; Close fn_sf_atoms])
  /\ exists s : self_t,
       _set_band
         (new_self paths dynamical_matrix cell es is_eigenvectors
            is_band_connection gv factor)
       = (Raise ValueError, s, batch ++ [message])
       /\ _distance s = 0 /\ _special_point s = [0] /\ _distances s = []
       /\ _lastq s = Some q0 /\ _eigenstates s = es
       /\ _frequencies s = None.
Proof.
  intros Hnac Hinv paths batch message.
  destruct dynamical_matrix as [nac]. cbn in Hnac. subst nac.
  subst paths batch message.
  destruct gv as [g | ].
  - split.
    + unfold __init__. run_with Hinv. reflexivity.
    + eexists. split; [run_with Hinv; reflexivity | ].
      cbn. repeat split. rewrite norm_zero_delta. ring.
  - split.
    + unfold __init__. run_with Hinv. reflexivity.
    + eexists. split; [run_with Hinv; reflexivity | ].
      cbn. repeat split. rewrite norm_zero_delta. ring.
Qed.

End Properties.

(* ------------------------------------------------------------------ *)
(** ** Properties of a whole construction *)

Section Construction.

Context {ES PrW GV : Type}.
Context {eigenstates_ops : Eigenstates ES PrW}.
Context {group_velocity_ops : GroupVelocity GV}.
Context {formats : Formats}.

Abbreviation self_t := (@self_t ES PrW GV).
Abbreviation event := (@event PrW GV).
Abbreviation M := (@M ES PrW GV).

Lemma updated_refl (s : self_t) : updated s s.
Proof.
  exists (_distance s), (_lastq s), (_special_point s),
    (_pg_symbol_on_path s), (_eigenstates s), (_group_velocity s).
  destruct s; reflexivity.
Qed.

Lemma updated_trans (s1 s2 s3 : self_t) :
  updated s1 s2 -> updated s2 s3 -> updated s1 s3.
Proof.
  intros (d & lq & sp & pg & es & gv & ->)
         (d' & lq' & sp' & pg' & es' & gv' & ->).
  exists d', lq', sp', pg', es', gv'. reflexivity.
Qed.

Lemma updated_update (s : self_t) d lq sp pg es gv :
  updated s (update d lq sp pg es gv s).
Proof. exists d, lq, sp, pg, es, gv. reflexivity. Qed.

Lemma walked_updated (s s' : self_t) : walked s s' -> updated s s'.
Proof. intros (d & lq & es & ->). apply updated_update. Qed.

(** What [updated] leaves as it is. *)
Lemma updated_fields (s s' : self_t) :
  updated s s' ->
  _dynamical_matrix s' = _dynamical_matrix s /\ _cell s' = _cell s
  /\ _factor s' = _factor s /\ _is_eigenvectors s' = _is_eigenvectors s
  /\ _is_band_connection s' = _is_band_connection s
  /\ _paths s' = _paths s /\ _distances s' = _distances s
  /\ _eigenvectors s' = _eigenvectors s /\ _frequencies s' = _frequencies s
  /\ _pr_weights s' = _pr_weights s /\ _nums_arms s' = _nums_arms s
  /\ _nums_irreps s' = _nums_irreps s
  /\ _rot_pr_weights s' = _rot_pr_weights s
  /\ _ir_labels s' = _ir_labels s /\ _pg_symbols s' = _pg_symbols s
  /\ _group_velocities s' = _group_velocities s
  /\ _weights s' = _weights s.
Proof.
  intros (d & lq & sp & pg & es & gv & ->). repeat split.
Qed.

(** One more point of a run of the loop over the points that returns. *)
Lemma path_loop_cons_ok (nac : bool) (gv : option (list (list vec3)))
    (i : nat) (q : vec3) (qs : list vec3) (L L' : path_locals)
    (s s' : self_t) (l : list event) :
  for_enumerate (solve_point nac gv) i (q :: qs) L s = (Ok L', s', l) ->
  exists prev inv gv_i l2,
    _lastq s = Some prev
    /\ linalg_inv (get_cell (_cell s)) = Some inv
    /\ nac = false
    /\ match gv with
       | Some g => exists v, index g i = Some v /\ gv_i = Some v
       | None => gv_i = None
       end
    /\ for_enumerate (solve_point false gv) (S i) qs
         (push_point (_is_eigenvectors s) (_distance (shifted inv prev q s))
            (_factor s) (fst (extract_eigenstates (_eigenstates s) q))
            (snd (extract_eigenstates (_eigenstates s) q)) gv_i L)
         (set_eigenstates (fst (extract_eigenstates (_eigenstates s) q))
            (shifted inv prev q s))
       = (Ok L', s', l2)
    /\ l = point_events q (_distance (shifted inv prev q s)) (_factor s)
             (fst (extract_eigenstates (_eigenstates s) q))
             (snd (extract_eigenstates (_eigenstates s) q)) ++ l2.
Proof.
  intros Hrun. cbn [for_enumerate] in Hrun. unfold bind in Hrun.
  rewrite solve_point_run in Hrun.
  destruct (_lastq s) as [prev | ]; [ | discriminate].
  destruct (linalg_inv (get_cell (_cell s))) as [inv | ]; [ | discriminate].
  cbv zeta in Hrun. destruct nac; [discriminate | ].
  exists prev, inv.
  destruct gv as [g | ]; [destruct (index g i) as [v | ] | ];
    try discriminate;
    destruct (for_enumerate _ _ _ _ _) as [[r2 s2] l2] eqn:Hloop;
    inversion Hrun; subst; eauto 12.
Qed.

(** What a run of the loop over the points that returns has appended to
    the lists that hold what the extractor gave. *)
Lemma path_loop_results (nac : bool) (gv : option (list (list vec3)))
    (qs : list vec3) :
  forall (i : nat) (L L' : path_locals) (s s' : self_t) (l : list event),
    for_enumerate (solve_point nac gv) i qs L s = (Ok L', s', l) ->
    frequencies_on_path L'
    = frequencies_on_path L
        ++ map (fun out => calculate_frequencies (out_eigvals out) (_factor s))
             (es_outputs (_eigenstates s) qs)
    /\ pr_weights_on_path L'
       = pr_weights_on_path L
           ++ map out_pr_weights (es_outputs (_eigenstates s) qs)
    /\ rot_pr_weights_on_path L'
       = rot_pr_weights_on_path L
           ++ map out_rot_pr_weights (es_outputs (_eigenstates s) qs)
    /\ eigvecs_on_path L'
       = eigvecs_on_path L
           ++ (if _is_eigenvectors s
               then map out_eigvecs (es_outputs (_eigenstates s) qs)
               else [])
    /\ nqstar_on_path L'
       = nqstar_on_path L ++ map get_narms (es_states (_eigenstates s) qs)
    /\ num_irs_on_path L'
       = num_irs_on_path L ++ map get_num_irs (es_states (_eigenstates s) qs)
    /\ ir_labels_on_path L'
       = ir_labels_on_path L
           ++ map get_ir_labels (es_states (_eigenstates s) qs).
Proof.
  induction qs as [ | q qs IH]; intros i L L' s s' l Hrun.
  - cbn in Hrun. unfold ret in Hrun. inversion Hrun; subst. cbn.
    destruct (_is_eigenvectors s'); rewrite !app_nil_r; repeat split.
  - apply path_loop_cons_ok in Hrun.
    destruct Hrun as (prev & inv & gv_i & l2 & _ & _ & -> & _ & Hloop & _).
    apply IH in Hloop.
    cbn [set_eigenstates shifted set_lastq set_distance update _factor
         _eigenstates _is_eigenvectors push_point frequencies_on_path
         pr_weights_on_path rot_pr_weights_on_path eigvecs_on_path
         nqstar_on_path num_irs_on_path ir_labels_on_path] in Hloop.
    destruct Hloop as (HF & HW & HR & HE & HN & HI & HL).
    cbn [es_outputs es_states map].
    rewrite HF, HW, HR, HE, HN, HI, HL.
    destruct (_is_eigenvectors s); rewrite <- ?app_assoc; repeat split.
Qed.

(** A run of the body of the loop of [_set_band] that returns: the local
    lists and the object it leaves, and its events. *)
Lemma set_band_path_full (path : list vec3) (B B1 : band_locals)
    (s s1 : self_t) (l : list event) :
  set_band_path path B s = (Ok B1, s1, l) ->
  exists q0 rest inv,
    path = q0 :: rest
    /\ linalg_inv (get_cell (_cell s)) = Some inv
    /\ is_nac (_dynamical_matrix s) = false
    /\ B1 = {| frequencies :=
                 frequencies B
                   ++ [map (fun out =>
                              calculate_frequencies (out_eigvals out)
                                (_factor s))
                         (es_outputs (_eigenstates s) path)];
               eigvecs :=
                 if _is_eigenvectors s
                 then eigvecs B
                        ++ [map out_eigvecs (es_outputs (_eigenstates s) path)]
                 else eigvecs B;
               pr_weights :=
                 pr_weights B
                   ++ [map out_pr_weights (es_outputs (_eigenstates s) path)];
               nums_arms :=
                 nums_arms B
                   ++ [map get_narms (es_states (_eigenstates s) path)];
               group_velocities :=
                 match _group_velocity s with
                 | Some g =>
                     group_velocities B
                       ++ [firstn (length path)
                             (get_group_velocity (set_q_points g path))]
                 | None => group_velocities B
                 end;
               distances :=
                 distances B ++ [walk inv (_distance s) q0 path];
               rot_pr_weights :=
                 rot_pr_weights B
                   ++ [map out_rot_pr_weights
                         (es_outputs (_eigenstates s) path)];
               nums_irreps :=
                 nums_irreps B
                   ++ [map get_num_irs (es_states (_eigenstates s) path)];
               ir_labels :=
                 ir_labels B
                   ++ [map get_ir_labels (es_states (_eigenstates s) path)];
               pg_symbols :=
                 pg_symbols B
                   ++ [map get_pointgroup_symbol
                         (es_states (_eigenstates s) path)] |}
    /\ s1 = update
              (last (walk inv (_distance s) q0 path) (_distance s))
              (Some (last path q0))
              (_special_point s
                 ++ [last (walk inv (_distance s) q0 path) (_distance s)])
              (Some (map get_pointgroup_symbol
                       (es_states (_eigenstates s) path)))
              (last (es_states (_eigenstates s) path) (_eigenstates s))
              (match _group_velocity s with
               | Some g => Some (set_q_points g path)
               | None => None
               end) s
    /\ (forall g, _group_velocity s = Some g ->
          (length path <= length (get_group_velocity (set_q_points g path)))%nat)
    /\ l = batch_events path s
           ++ path_events inv (_factor s) (_distance s) q0 (_eigenstates s) path.
Proof.
  intros Hrun.
  pose proof (set_band_path_ok _ _ _ _ _ _ Hrun)
    as (q0' & inv & Hq0 & Hinv & Hnac & _ & _ & _ & _ & _ & _ & _ & _ & Hl).
  unfold set_band_path in Hrun.
  destruct path as [ | q0 rest]; [discriminate | ].
  cbn in Hq0. inversion Hq0; subst q0'; clear Hq0.
  exists q0, rest, inv.
  split; [reflexivity | ]. split; [exact Hinv | ]. split; [exact Hnac | ].
  unfold bind at 1 in Hrun. unfold ret at 1 in Hrun.
  unfold bind at 1 in Hrun. unfold _set_initial_point, modify at 1 in Hrun.
  unfold bind at 1 in Hrun. rewrite _solve_dm_on_path_run in Hrun.
  set (s0 := set_lastq (Some q0) s) in *.
  destruct (batch_state_fields (q0 :: rest) s0)
    as (Hlq & Hcell & Hd & Hes & Hf & Hsp & Hie & Hdm).
  destruct (for_enumerate _ _ _ _ _) as [[[L | e] s2] l2] eqn:Hloop;
    [ | discriminate].
  pose proof (path_loop_results _ _ _ _ _ _ _ _ _ Hloop)
    as (HF & HW & HR & HE & HN & HI & HLb).
  pose proof (path_loop_group_velocity _ _ _ _ _ _ _ _ _ Hloop) as (_ & HG).
  specialize (HG L eq_refl).
  apply (path_loop_ok _ _ _ _ _ _ _ _ _ q0 inv) in Hloop;
    [ | rewrite Hlq; reflexivity | rewrite Hcell; exact Hinv].
  destruct Hloop as (Hw & _ & Hd2 & Hlq2 & Hes2 & _ & HD & HP & _).
  rewrite Hd, Hes, Hf in *. rewrite Hie in HE.
  destruct Hw as (d2 & lq2 & es2 & ->).
  cbn [_distance _lastq _eigenstates update] in Hd2, Hlq2, Hes2.
  subst d2 lq2 es2.
  cbn [empty_path_locals frequencies_on_path pr_weights_on_path
       rot_pr_weights_on_path eigvecs_on_path nqstar_on_path num_irs_on_path
       ir_labels_on_path distances_on_path pg_symbol_on_path gv_on_path app]
    in HF, HW, HR, HE, HN, HI, HLb, HD, HP, HG.
  unfold bind, get_pg_symbol_on_path, getattr, get, modify, ret in Hrun.
  cbn in Hrun. inversion Hrun; subst B1 s1; clear Hrun.
  rewrite HF, HW, HR, HE, HN, HI, HLb, HD, HP.
  unfold batch_result, batch_state in *. subst s0.
  cbn [_group_velocity set_lastq update _is_eigenvectors _factor _eigenstates
       _distance _special_point _pg_symbol_on_path] in *.
  destruct (_group_velocity s) as [g | ] eqn:Hg.
  - destruct HG as (HG & Hlen). rewrite HG.
    cbn [_group_velocity set_group_velocity set_lastq update _is_eigenvectors
         _factor _eigenstates _distance _special_point _pg_symbol_on_path].
    split; [ | split; [ | split]].
    + destruct (_is_eigenvectors s); reflexivity.
    + reflexivity.
    + intros g' Hg'. inversion Hg'; subst g'.
      destruct Hlen as [Hlen | Hlen]; [exact Hlen | discriminate].
    + congruence.
  - rewrite HG.
    cbn [_group_velocity set_group_velocity set_lastq update _is_eigenvectors
         _factor _eigenstates _distance _special_point _pg_symbol_on_path].
    rewrite Hg.
    split; [ | split; [ | split]].
    + destruct (_is_eigenvectors s); reflexivity.
    + reflexivity.
    + intros g' Hg'. discriminate.
    + congruence.
Qed.

(** A run of the loop of [_set_band] that returns: the local lists and
    the object it leaves, and its events. *)
Lemma band_loop_full (paths : list (list vec3)) :
  forall (B B' : band_locals) (s s' : self_t) (l : list event) (inv : mat3),
    for_each set_band_path paths B s = (Ok B', s', l) ->
    (paths <> [] -> linalg_inv (get_cell (_cell s)) = Some inv) ->
    updated s s'
    /\ frequencies B'
       = frequencies B
           ++ per_path
                (fun es path =>
                   map (fun out =>
                          calculate_frequencies (out_eigvals out) (_factor s))
                     (es_outputs es path))
                (_eigenstates s) paths
    /\ eigvecs B'
       = eigvecs B
           ++ (if _is_eigenvectors s
               then per_path
                      (fun es path => map out_eigvecs (es_outputs es path))
                      (_eigenstates s) paths
               else [])
    /\ pr_weights B'
       = pr_weights B
           ++ per_path
                (fun es path => map out_pr_weights (es_outputs es path))
                (_eigenstates s) paths
    /\ rot_pr_weights B'
       = rot_pr_weights B
           ++ per_path
                (fun es path => map out_rot_pr_weights (es_outputs es path))
                (_eigenstates s) paths
    /\ nums_arms B'
       = nums_arms B
           ++ per_path (fun es path => map get_narms (es_states es path))
                (_eigenstates s) paths
    /\ nums_irreps B'
       = nums_irreps B
           ++ per_path (fun es path => map get_num_irs (es_states es path))
                (_eigenstates s) paths
    /\ ir_labels B'
       = ir_labels B
           ++ per_path (fun es path => map get_ir_labels (es_states es path))
                (_eigenstates s) paths
    /\ group_velocities B'
       = group_velocities B
           ++ match _group_velocity s with
              | Some g => batches g paths
              | None => []
              end
    /\ distances B' = distances B ++ band_walk inv (_distance s) paths
    /\ _pg_symbol_on_path s'
       = last
           (map Some
              (per_path
                 (fun es path =>
                    map get_pointgroup_symbol (es_states es path))
                 (_eigenstates s) paths))
           (_pg_symbol_on_path s)
    /\ _lastq s'
       = last (map (fun path => Some (last path vzero)) paths) (_lastq s)
    /\ l = band_events inv (_factor s) (_distance s) (_eigenstates s)
             (match _group_velocity s with Some _ => true | None => false end)
             paths.
Proof.
  induction paths as [ | path paths IH]; intros B B' s s' l inv Hrun Hinv.
  - cbn in Hrun. unfold ret in Hrun. inversion Hrun; subst. cbn.
    destruct (_is_eigenvectors s'), (_group_velocity s');
      rewrite !app_nil_r; repeat split; apply updated_refl.
  - cbn [for_each] in Hrun. unfold bind in Hrun.
    destruct (set_band_path path B s) as [[[B1 | e] s1] l1] eqn:Hstep;
      [ | discriminate].
    destruct (for_each set_band_path paths B1 s1) as [[r s2] l2] eqn:Hloop.
    inversion Hrun; subst r s2 l; clear Hrun.
    apply set_band_path_full in Hstep.
    destruct Hstep as (q0 & rest & inv' & -> & Hinv' & _ & -> & -> & _ & ->).
    rewrite (Hinv ltac:(discriminate)) in Hinv'.
    inversion Hinv'; subst inv'; clear Hinv'.
    apply (IH _ _ _ _ _ inv) in Hloop.
    2: { intros _. cbn [_cell update]. apply Hinv. discriminate. }
    cbn [update _factor _eigenstates _is_eigenvectors _group_velocity
         _distance _pg_symbol_on_path _lastq frequencies eigvecs pr_weights
         rot_pr_weights nums_arms nums_irreps ir_labels group_velocities
         distances] in Hloop.
    destruct Hloop
      as (Hup & HF & HE & HW & HR & HN & HI & HL & HG & HD & HP & HQ & Hl).
    cbn [per_path batches band_walk band_events map hd].
    rewrite HF, HE, HW, HR, HN, HI, HL, HG, HD, HP, HQ, Hl.
    rewrite !last_cons. unfold batch_events.
    split; [eapply updated_trans; [apply updated_update | exact Hup] | ].
    destruct (_is_eigenvectors s), (_group_velocity s);
      rewrite <- ?app_assoc; cbn [app]; repeat split.
Qed.

(* pure facts on the closed forms *)

Lemma es_outputs_length (qs : list vec3) (es : ES) :
  length (es_outputs es qs) = length qs.
Proof.
  revert es. induction qs as [ | q qs IH]; intros es; cbn;
    [reflexivity | ]. rewrite IH. reflexivity.
Qed.

Lemma es_outputs_app (a b : list vec3) (es : ES) :
  es_outputs es (a ++ b)
  = es_outputs es a ++ es_outputs (last (es_states es a) es) b.
Proof.
  revert es. induction a as [ | q a IH]; intros es;
    cbn [app es_outputs es_states]; [reflexivity | ].
  rewrite IH, last_cons. reflexivity.
Qed.

Lemma per_path_lengths {A : Type} (f : ES -> list vec3 -> list A)
    (paths : list (list vec3)) (es : ES) :
  (forall es' path, length (f es' path) = length path) ->
  map (@length A) (per_path f es paths) = map (@length vec3) paths.
Proof.
  intros Hf. revert es. induction paths as [ | path paths IH]; intros es;
    cbn; [reflexivity | ]. rewrite Hf, IH. reflexivity.
Qed.

Lemma per_path_states_concat {A : Type} (g : ES -> A)
    (paths : list (list vec3)) (es : ES) :
  concat (per_path (fun es' path => map g (es_states es' path)) es paths)
  = map g (es_states es (concat paths)).
Proof.
  revert es. induction paths as [ | path paths IH]; intros es; cbn;
    [reflexivity | ]. rewrite IH, es_states_app, map_app. reflexivity.
Qed.

Lemma per_path_outputs_concat {A : Type} (g : eigen_output PrW -> A)
    (paths : list (list vec3)) (es : ES) :
  concat (per_path (fun es' path => map g (es_outputs es' path)) es paths)
  = map g (es_outputs es (concat paths)).
Proof.
  revert es. induction paths as [ | path paths IH]; intros es; cbn;
    [reflexivity | ]. rewrite IH, es_outputs_app, map_app. reflexivity.
Qed.

(** A construction that returns: the loop of [_set_band] has returned,
    with the lattice inverted and the correction off if there is a path. *)
Lemma init_full (paths : list (list vec3))
    (dynamical_matrix : dynamical_matrix_t) (cell : cell_t) (es : ES)
    (is_eigenvectors is_band_connection : bool) (gv : option GV)
    (factor : R) (self : self_t) (log : list event) :
  __init__ paths dynamical_matrix cell es is_eigenvectors
    is_band_connection gv factor = (Ok self, log) ->
  exists B s' l inv,
    for_each set_band_path paths empty_band_locals
      (new_self paths dynamical_matrix cell es is_eigenvectors
         is_band_connection gv factor) = (Ok B, s', l)
    /\ self = assign_band B s'
    /\ log = Open fn_sf_atoms
               :: (Open fn_sf_irs :: l ++ [Close fn_sf_irs])
               ++ [Close fn_sf_atoms]
    /\ (paths <> [] ->
        linalg_inv (get_cell cell) = Some inv
        /\ is_nac dynamical_matrix = false).
Proof.
  intros Hrun. apply init_ok in Hrun.
  destruct Hrun as (B & s' & l & Hloop & Hself & Hlog).
  destruct paths as [ | path paths].
  - exists B, s', l, identity.
    split; [exact Hloop | ]. split; [exact Hself | ]. split; [exact Hlog | ].
    intros Hne. contradiction Hne. reflexivity.
  - pose proof Hloop as Hfirst. cbn [for_each] in Hfirst.
    unfold bind in Hfirst.
    destruct (set_band_path path _ _) as [[[B1 | e] s1] l1] eqn:Hstep;
      [ | discriminate].
    apply set_band_path_ok in Hstep.
    destruct Hstep as (q0 & inv & _ & Hinv & Hnac & _).
    exists B, s', l, inv.
    split; [exact Hloop | ]. split; [exact Hself | ]. split; [exact Hlog | ].
    intros _. split; assumption.
Qed.

(** The group-velocity object after a run of the loop of [_set_band]
    that returns, and the lengths of its batches. *)
Lemma band_loop_group_velocity (paths : list (list vec3)) :
  forall (B B' : band_locals) (s s' : self_t) (l : list event),
    for_each set_band_path paths B s = (Ok B', s', l) ->
    match _group_velocity s with
    | Some g =>
        _group_velocity s' = Some (fold_left set_q_points paths g)
        /\ map (@length (list vec3)) (batches g paths)
           = map (@length vec3) paths
    | None => _group_velocity s' = None
    end.
Proof.
  induction paths as [ | path paths IH]; intros B B' s s' l Hrun.
  - cbn in Hrun. unfold ret in Hrun. inversion Hrun; subst.
    destruct (_group_velocity s'); cbn; auto.
  - cbn [for_each] in Hrun. unfold bind in Hrun.
    destruct (set_band_path path B s) as [[[B1 | e] s1] l1] eqn:Hstep;
      [ | discriminate].
    destruct (for_each set_band_path paths B1 s1) as [[r s2] l2] eqn:Hloop.
    inversion Hrun; subst r s2 l; clear Hrun.
    apply set_band_path_full in Hstep.
    destruct Hstep as (q0 & rest & inv' & -> & _ & _ & _ & -> & Hlen & _).
    apply IH in Hloop. cbn [_group_velocity update] in Hloop.
    destruct (_group_velocity s) as [g | ]; [ | exact Hloop].
    destruct Hloop as (Hg & Hb). split; [exact Hg | ].
    cbn [batches map fold_left]. rewrite Hb. f_equal.
    rewrite length_firstn. specialize (Hlen g eq_refl). lia.
Qed.

(** The object and the events of a construction that returns, in closed
    form. *)
Lemma init_closed_form (paths : list (list vec3))
    (dynamical_matrix : dynamical_matrix_t) (cell : cell_t) (es : ES)
    (is_eigenvectors is_band_connection : bool) (gv : option GV)
    (factor : R) (self : self_t) (log : list event) :
  __init__ paths dynamical_matrix cell es is_eigenvectors
    is_band_connection gv factor = (Ok self, log) ->
  exists inv,
    (paths <> [] ->
     linalg_inv (get_cell cell) = Some inv /\ is_nac dynamical_matrix = false)
    /\ (_paths self = paths /\ _cell self = cell /\ _factor self = factor
        /\ _dynamical_matrix self = dynamical_matrix
        /\ _is_band_connection self = is_band_connection
        /\ _is_eigenvectors self
           = (if is_band_connection then true else is_eigenvectors)
        /\ _weights self = None)
    /\ _frequencies self
       = Some (per_path
                 (fun es path =>
                    map (fun out =>
                           calculate_frequencies (out_eigvals out) factor)
                      (es_outputs es path)) es paths)
    /\ _eigenvectors self
       = (if (if is_band_connection then true else is_eigenvectors)
          then Some (per_path
                       (fun es path => map out_eigvecs (es_outputs es path))
                       es paths)
          else None)
    /\ _pr_weights self
       = Some (per_path
                 (fun es path => map out_pr_weights (es_outputs es path))
                 es paths)
    /\ _rot_pr_weights self
       = Some (per_path
                 (fun es path => map out_rot_pr_weights (es_outputs es path))
                 es paths)
    /\ _nums_arms self
       = Some (per_path (fun es path => map get_narms (es_states es path))
                 es paths)
    /\ _nums_irreps self
       = Some (per_path (fun es path => map get_num_irs (es_states es path))
                 es paths)
    /\ _ir_labels self
       = Some (per_path (fun es path => map get_ir_labels (es_states es path))
                 es paths)
    /\ match gv with
       | Some g =>
           _group_velocities self = Some (batches g paths)
           /\ _group_velocity self = Some (fold_left set_q_points paths g)
           /\ map (@length (list vec3)) (batches g paths)
              = map (@length vec3) paths
       | None => _group_velocities self = None /\ _group_velocity self = None
       end
    /\ _distances self = band_walk inv 0 paths
    /\ _pg_symbol_on_path self
       = last
           (map Some
              (per_path
                 (fun es path =>
                    map get_pointgroup_symbol (es_states es path))
                 es paths))
           None
    /\ _lastq self = last (map (fun path => Some (last path vzero)) paths) None
    /\ log = Open fn_sf_atoms :: Open fn_sf_irs
               :: band_events inv factor 0 es
                    (match gv with Some _ => true | None => false end) paths
               ++ [Close fn_sf_irs; Close fn_sf_atoms].
Proof.
  intros Hrun. apply init_full in Hrun.
  destruct Hrun as (B & s' & l & inv & Hloop & -> & -> & Hinv).
  exists inv. split; [exact Hinv | ].
  pose proof (band_loop_group_velocity _ _ _ _ _ _ Hloop) as Hgv.
  apply (band_loop_full _ _ _ _ _ _ inv) in Hloop.
  2: { intros Hne. cbn [_cell new_self]. apply Hinv. exact Hne. }
  cbn [new_self _factor _eigenstates _is_eigenvectors _group_velocity
       _distance _pg_symbol_on_path _lastq empty_band_locals frequencies
       eigvecs pr_weights rot_pr_weights nums_arms nums_irreps ir_labels
       group_velocities distances app] in Hloop, Hgv.
  destruct Hloop
    as (Hup & HF & HE & HW & HR & HN & HI & HL & HG & HD & HP & HQ & Hl).
  destruct Hup as (d & lq & sp & pg & es' & gv' & Hs').
  rewrite Hs' in *.
  cbn [assign_band update new_self _paths _cell _factor _dynamical_matrix
       _is_band_connection _is_eigenvectors _weights _frequencies
       _eigenvectors _pr_weights _rot_pr_weights _nums_arms _nums_irreps
       _ir_labels _group_velocities _group_velocity _distances
       _pg_symbol_on_path _lastq] in *.
  rewrite HF, HE, HW, HR, HN, HI, HL, HG, HD, Hl.
  split; [repeat split | ].
  split; [reflexivity | ].
  split; [destruct (if is_band_connection then true else is_eigenvectors);
          reflexivity | ].
  do 5 (split; [reflexivity | ]).
  split.
  { destruct gv as [g | ].
    - destruct Hgv as (Hg' & Hlen). rewrite Hg'. repeat split. exact Hlen.
    - rewrite Hgv. split; reflexivity. }
  split; [reflexivity | ].
  split; [exact HP | ]. split; [exact HQ | ].
  cbn. rewrite <- !app_assoc. reflexivity.
Qed.

(* ------------------------------------------------------------------ *)
(** ** The arrays a construction keeps *)

(** X1. When a construction returns, the frequencies, the partial weights,
    the rotated partial weights, the numbers of arms, the numbers of
    irreducible representations and their labels are all assigned, each
    with one array per path and, in it, one entry per point of the path. *)
Theorem kept_arrays_have_one_entry_per_point (paths : list (list vec3))
    (dynamical_matrix : dynamical_matrix_t) (cell : cell_t) (es : ES)
    (is_eigenvectors is_band_connection : bool) (gv : option GV)
    (factor : R) (self : self_t) (log : list event) :
  __init__ paths dynamical_matrix cell es is_eigenvectors
    is_band_connection gv factor = (Ok self, log) ->
  exists frequencies pr_weights rot_pr_weights nums_arms nums_irreps
         ir_labels,
    _frequencies self = Some frequencies
    /\ _pr_weights self = Some pr_weights
    /\ _rot_pr_weights self = Some rot_pr_weights
    /\ _nums_arms self = Some nums_arms
    /\ _nums_irreps self = Some nums_irreps
    /\ _ir_labels self = Some ir_labels
    /\ map (@length (list R)) frequencies = map (@length vec3) paths
    /\ map (@length PrW) pr_weights = map (@length vec3) paths
    /\ map (@length (list (list R))) rot_pr_weights
       = map (@length vec3) paths
    /\ map (@length Z) nums_arms = map (@length vec3) paths
    /\ map (@length Z) nums_irreps = map (@length vec3) paths
    /\ map (@length (list string)) ir_labels = map (@length vec3) paths.
Proof.
  intros Hrun. apply init_closed_form in Hrun.
  destruct Hrun
    as (inv & _ & _ & HF & _ & HW & HR & HN & HI & HL & _).
  do 6 eexists.
  do 6 (split; [eassumption | ]).
  repeat split; apply per_path_lengths; intros;
    rewrite length_map; auto using es_outputs_length, es_states_length.
Qed.

(** X2. When a construction returns, what it keeps for the i-th point of
    all paths put end to end is what the extractor gave at its i-th
    extraction, the extractor being called on the points in that order
    from the state it was given in: the frequencies computed from the
    eigenvalues with the conversion factor, the weights as returned, and
    the numbers of arms, of irreducible representations and the labels
    read after that extraction. *)
Theorem kept_arrays_follow_the_extractions (paths : list (list vec3))
    (dynamical_matrix : dynamical_matrix_t) (cell : cell_t) (es : ES)
    (is_eigenvectors is_band_connection : bool) (gv : option GV)
    (factor : R) (self : self_t) (log : list event) :
  __init__ paths dynamical_matrix cell es is_eigenvectors
    is_band_connection gv factor = (Ok self, log) ->
  let outputs := es_outputs es (concat paths) in
  let states := es_states es (concat paths) in
  option_map (@concat (list R)) (_frequencies self)
  = Some (map (fun out => calculate_frequencies (out_eigvals out) factor)
            outputs)
  /\ option_map (@concat PrW) (_pr_weights self)
     = Some (map out_pr_weights outputs)
  /\ option_map (@concat (list (list R))) (_rot_pr_weights self)
     = Some (map out_rot_pr_weights outputs)
  /\ option_map (@concat Z) (_nums_arms self) = Some (map get_narms states)
  /\ option_map (@concat Z) (_nums_irreps self)
     = Some (map get_num_irs states)
  /\ option_map (@concat (list string)) (_ir_labels self)
     = Some (map get_ir_labels states).
Proof.
  intros Hrun outputs states. apply init_closed_form in Hrun.
  destruct Hrun
    as (inv & _ & _ & HF & _ & HW & HR & HN & HI & HL & _).
  rewrite HF, HW, HR, HN, HI, HL. cbn [option_map].
  rewrite !per_path_outputs_concat, !per_path_states_concat.
  repeat split.
Qed.

(** X3. Eigenvectors are kept exactly when [is_eigenvectors] or
    [is_band_connection] was given true: then [self._eigenvectors] holds,
    for every path, the eigenvectors of every point in order; otherwise it
    stays [None]. *)
Theorem eigenvectors_kept_when_requested (paths : list (list vec3))
    (dynamical_matrix : dynamical_matrix_t) (cell : cell_t) (es : ES)
    (is_eigenvectors is_band_connection : bool) (gv : option GV)
    (factor : R) (self : self_t) (log : list event) :
  __init__ paths dynamical_matrix cell es is_eigenvectors
    is_band_connection gv factor = (Ok self, log) ->
  _is_eigenvectors self = (is_eigenvectors || is_band_connection)%bool
  /\ if (is_eigenvectors || is_band_connection)%bool
     then exists eigenvectors,
         _eigenvectors self = Some eigenvectors
         /\ map (@length (list (list complex))) eigenvectors
            = map (@length vec3) paths
         /\ concat eigenvectors
            = map out_eigvecs (es_outputs es (concat paths))
     else _eigenvectors self = None.
Proof.
  intros Hrun. apply init_closed_form in Hrun.
  destruct Hrun as (inv & _ & (_ & _ & _ & _ & _ & Hie & _) & _ & HE & _).
  rewrite Hie, HE.
  destruct is_eigenvectors, is_band_connection; cbn;
    try (split; reflexivity);
    (split; [reflexivity | ]); eexists; (split; [reflexivity | ]);
    (split; [apply per_path_lengths; intros;
             rewrite length_map; apply es_outputs_length
            | apply per_path_outputs_concat]).
Qed.

(** X4. Group velocities are kept exactly when a group-velocity object was
    given: then [self._group_velocities] holds, for every path, the first
    [len(path)] entries of the batch answered for that path, one per
    point, and the object has been given the q-points of every path in
    turn; otherwise the attribute is never assigned. *)
Theorem group_velocities_kept_when_configured (paths : list (list vec3))
    (dynamical_matrix : dynamical_matrix_t) (cell : cell_t) (es : ES)
    (is_eigenvectors is_band_connection : bool) (gv : option GV)
    (factor : R) (self : self_t) (log : list event) :
  __init__ paths dynamical_matrix cell es is_eigenvectors
    is_band_connection gv factor = (Ok self, log) ->
  match gv with
  | Some g =>
      _group_velocities self = Some (batches g paths)
      /\ map (@length (list vec3)) (batches g paths)
         = map (@length vec3) paths
      /\ _group_velocity self = Some (fold_left set_q_points paths g)
  | None => _group_velocities self = None /\ _group_velocity self = None
  end.
Proof.
  intros Hrun. apply init_closed_form in Hrun.
  destruct Hrun as (inv & _ & _ & _ & _ & _ & _ & _ & _ & _ & HG & _).
  destruct gv as [g | ]; [ | exact HG].
  destruct HG as (H1 & H2 & H3). repeat split; assumption.
Qed.

(** X5. When a construction returns with an invertible lattice, the
    distances it keeps are those of the walk: each path is walked from its
    own first point, starting from the distance reached at the end of the
    path before (0 for the first), and each step adds the norm of the
    difference of consecutive q-points times the transposed inverse
    lattice. *)
Theorem kept_distances_are_the_walk (paths : list (list vec3))
    (dynamical_matrix : dynamical_matrix_t) (cell : cell_t) (es : ES)
    (is_eigenvectors is_band_connection : bool) (gv : option GV)
    (factor : R) (self : self_t) (log : list event) (inv : mat3) :
  __init__ paths dynamical_matrix cell es is_eigenvectors
    is_band_connection gv factor = (Ok self, log) ->
  linalg_inv (get_cell cell) = Some inv ->
  _distances self = band_walk inv 0 paths.
Proof.
  intros Hrun Hinv. apply init_closed_form in Hrun.
  destruct Hrun
    as (inv' & Hne & _ & _ & _ & _ & _ & _ & _ & _ & _ & HD & _).
  rewrite HD. destruct paths as [ | path paths]; [reflexivity | ].
  destruct (Hne ltac:(discriminate)) as (Hinv' & _).
  congruence.
Qed.

(** X6. A construction that returns leaves what it was given as it was:
    the paths, the cell, the conversion factor, the dynamical matrix and
    the band-connection flag; and it assigns no [_weights]. *)
Theorem construction_keeps_what_it_was_given (paths : list (list vec3))
    (dynamical_matrix : dynamical_matrix_t) (cell : cell_t) (es : ES)
    (is_eigenvectors is_band_connection : bool) (gv : option GV)
    (factor : R) (self : self_t) (log : list event) :
  __init__ paths dynamical_matrix cell es is_eigenvectors
    is_band_connection gv factor = (Ok self, log) ->
  _paths self = paths /\ _cell self = cell /\ _factor self = factor
  /\ _dynamical_matrix self = dynamical_matrix
  /\ _is_band_connection self = is_band_connection
  /\ _weights self = None.
Proof.
  intros Hrun. apply init_closed_form in Hrun.
  destruct Hrun as (inv & _ & (H1 & H2 & H3 & H4 & H5 & _ & H7) & _).
  repeat split; assumption.
Qed.

(** X7. When a construction returns, the reference point of the walker is
    the last point of the last path, and the distance of the walker is the
    last special point; with no path, the reference point has never been
    assigned and the distance is 0. *)
Theorem walker_ends_at_last_point (paths : list (list vec3))
    (dynamical_matrix : dynamical_matrix_t) (cell : cell_t) (es : ES)
    (is_eigenvectors is_band_connection : bool) (gv : option GV)
    (factor : R) (self : self_t) (log : list event) :
  __init__ paths dynamical_matrix cell es is_eigenvectors
    is_band_connection gv factor = (Ok self, log) ->
  _distance self = last (_special_point self) 0
  /\ match paths with
     | [] => _lastq self = None /\ _distance self = 0
     | _ :: _ => _lastq self = Some (last (last paths []) vzero)
     end.
Proof.
  intros Hrun. pose proof Hrun as Hrun'.
  apply init_closed_form in Hrun.
  destruct Hrun
    as (inv & _ & _ & _ & _ & _ & _ & _ & _ & _ & _ & HD & _ & HQ & _).
  apply init_ok in Hrun'. destruct Hrun' as (B & s' & l & Hloop & -> & _).
  apply band_loop_ok in Hloop. destruct Hloop as (Hinv & _).
  destruct (Hinv (band_inv_new _ _ _ _ _ _ _ _)) as (Hsp & Hlast & _).
  cbn [_distance _special_point _lastq assign_band] in *.
  split; [symmetry; exact Hlast | ].
  destruct paths as [ | path paths].
  - cbn in HQ. split; [exact HQ | ].
    rewrite <- Hlast, Hsp. cbn in HD. rewrite HD. reflexivity.
  - rewrite HQ. cbn [map]. rewrite !last_cons. f_equal.
    generalize path. clear.
    induction paths as [ | p ps IH]; intros path; [reflexivity | ].
    cbn [map]. rewrite !last_cons. apply IH.
Qed.

(* ------------------------------------------------------------------ *)
(** ** The order of the calls *)

Abbreviation path_events := (@path_events ES PrW GV eigenstates_ops).
Abbreviation band_events := (@band_events ES PrW GV eigenstates_ops).

Lemma extracted_points_app (l1 l2 : list event) :
  extracted_points (l1 ++ l2) = extracted_points l1 ++ extracted_points l2.
Proof.
  induction l1 as [ | e l1 IH]; [reflexivity | ].
  destruct e; cbn; rewrite ?IH; reflexivity.
Qed.

Lemma printed_files_app (l1 l2 : list event) :
  printed_files (l1 ++ l2) = printed_files l1 ++ printed_files l2.
Proof.
  induction l1 as [ | e l1 IH]; [reflexivity | ].
  destruct e; cbn; rewrite ?IH; reflexivity.
Qed.

Lemma path_events_calls (inv : mat3) (factor : R) (qs : list vec3) :
  forall (d : R) (prev : vec3) (es : ES),
    extracted_points (path_events inv factor d prev es qs) = qs
    /\ printed_files (path_events inv factor d prev es qs)
       = flat_map (fun _ => [fn_sf_atoms; fn_sf_irs]) qs
    /\ filter is_gv_event (path_events inv factor d prev es qs) = []
    /\ filter is_file_event (path_events inv factor d prev es qs) = [].
Proof.
  induction qs as [ | q qs IH]; intros d prev es; [repeat split | ].
  cbn [path_events].
  rewrite extracted_points_app, printed_files_app, !filter_app.
  destruct (IH (d + norm (dot (vsub q prev) (transpose inv))) q
              (fst (extract_eigenstates es q))) as (-> & -> & -> & ->).
  repeat split.
Qed.

Lemma band_events_calls (inv : mat3) (factor : R) (has_gv : bool)
    (paths : list (list vec3)) :
  forall (d : R) (es : ES),
    extracted_points (band_events inv factor d es has_gv paths)
    = concat paths
    /\ printed_files (band_events inv factor d es has_gv paths)
       = flat_map (fun _ => [fn_sf_atoms; fn_sf_irs]) (concat paths)
    /\ filter is_gv_event (band_events inv factor d es has_gv paths)
       = (if has_gv
          then flat_map (fun path => [SetQPoints path; GetGroupVelocity])
                 paths
          else [])
    /\ filter is_file_event (band_events inv factor d es has_gv paths) = [].
Proof.
  induction paths as [ | path paths IH]; intros d es.
  - destruct has_gv; repeat split.
  - cbn [band_events concat flat_map].
    rewrite !extracted_points_app, !printed_files_app, !filter_app,
      flat_map_app.
    destruct (IH (last (walk inv d (hd vzero path) path) d)
                (last (es_states es path) es)) as (-> & -> & -> & ->).
    destruct (path_events_calls inv factor path d (hd vzero path) es)
      as (-> & -> & -> & ->).
    destruct has_gv; repeat split.
Qed.

(** X8. When a construction returns, the eigenstate extractor has been
    called exactly once for every point, in the order of the paths and,
    within a path, of its points. *)
Theorem every_point_extracted_once_in_order (paths : list (list vec3))
    (dynamical_matrix : dynamical_matrix_t) (cell : cell_t) (es : ES)
    (is_eigenvectors is_band_connection : bool) (gv : option GV)
    (factor : R) (self : self_t) (log : list event) :
  __init__ paths dynamical_matrix cell es is_eigenvectors
    is_band_connection gv factor = (Ok self, log) ->
  extracted_points log = concat paths.
Proof.
  intros Hrun. apply init_closed_form in Hrun.
  destruct Hrun as (inv & Hrest).
  do 13 (destruct Hrest as (_ & Hrest)). subst log.
  cbn [extracted_points]. rewrite extracted_points_app.
  destruct (band_events_calls inv factor
              (match gv with Some _ => true | None => false end) paths 0 es)
    as (-> & _).
  cbn. apply app_nil_r.
Qed.

(** X9. When a construction returns, the density extractor has printed
    exactly one line per point to each of the two files, the atoms file
    first and the irreps file second at every point, and nothing else. *)
Theorem one_line_per_point_in_each_file (paths : list (list vec3))
    (dynamical_matrix : dynamical_matrix_t) (cell : cell_t) (es : ES)
    (is_eigenvectors is_band_connection : bool) (gv : option GV)
    (factor : R) (self : self_t) (log : list event) :
  __init__ paths dynamical_matrix cell es is_eigenvectors
    is_band_connection gv factor = (Ok self, log) ->
  printed_files log
  = flat_map (fun _ => [fn_sf_atoms; fn_sf_irs]) (concat paths)
  /\ length (filter (String.eqb fn_sf_atoms) (printed_files log))
     = length (concat paths)
  /\ length (filter (String.eqb fn_sf_irs) (printed_files log))
     = length (concat paths).
Proof.
  intros Hrun. apply init_closed_form in Hrun.
  destruct Hrun as (inv & Hrest).
  do 13 (destruct Hrest as (_ & Hrest)). subst log.
  cbn [printed_files]. rewrite printed_files_app.
  destruct (band_events_calls inv factor
              (match gv with Some _ => true | None => false end) paths 0 es)
    as (_ & -> & _).
  cbn [printed_files]. rewrite app_nil_r.
  split; [reflexivity | ].
  induction (concat paths) as [ | q qs IH]; [split; reflexivity | ].
  destruct IH as (IH1 & IH2).
  change (flat_map (fun _ : vec3 => [fn_sf_atoms; fn_sf_irs]) (q :: qs))
    with (fn_sf_atoms :: fn_sf_irs
            :: flat_map (fun _ : vec3 => [fn_sf_atoms; fn_sf_irs]) qs).
  cbn [filter].
  replace (String.eqb fn_sf_atoms fn_sf_atoms) with true by reflexivity.
  replace (String.eqb fn_sf_atoms fn_sf_irs) with false by reflexivity.
  replace (String.eqb fn_sf_irs fn_sf_atoms) with false by reflexivity.
  replace (String.eqb fn_sf_irs fn_sf_irs) with true by reflexivity.
  cbn [length]. rewrite IH1, IH2. split; reflexivity.
Qed.

(** X10. When a construction returns, the group-velocity object, if there
    is one, has been called with the q-points of every path once, in the
    order of the paths, each time followed by one fetch of the
    velocities; if there is none, nothing of the kind was called. *)
Theorem group_velocity_called_once_per_path_in_order
    (paths : list (list vec3))
    (dynamical_matrix : dynamical_matrix_t) (cell : cell_t) (es : ES)
    (is_eigenvectors is_band_connection : bool) (gv : option GV)
    (factor : R) (self : self_t) (log : list event) :
  __init__ paths dynamical_matrix cell es is_eigenvectors
    is_band_connection gv factor = (Ok self, log) ->
  filter is_gv_event log
  = match gv with
    | Some _ =>
        flat_map (fun path => [SetQPoints path; GetGroupVelocity]) paths
    | None => []
    end.
Proof.
  intros Hrun. apply init_closed_form in Hrun.
  destruct Hrun as (inv & Hrest).
  do 13 (destruct Hrest as (_ & Hrest)). subst log.
  cbn [filter is_gv_event]. rewrite filter_app.
  destruct (band_events_calls inv factor
              (match gv with Some _ => true | None => false end) paths 0 es)
    as (_ & _ & -> & _).
  cbn. rewrite app_nil_r. destruct gv; reflexivity.
Qed.

(* ------------------------------------------------------------------ *)
(** ** The two files *)














(* ------------------------------------------------------------------ *)
(** ** When a construction raises, when it returns *)

(** X13. With a lattice that [np.linalg.inv] cannot invert and a first
    path that has a point, the construction raises [LinAlgError] at the
    first shift of the walker: after the batch call to the group-velocity
    object if there is one, before any extraction, and before the test of
    the non-analytic correction, which then raises nothing. *)
Theorem singular_lattice_raises_before_nac_test (q0 : vec3)
    (rest : list vec3) (others : list (list vec3))
    (dynamical_matrix : dynamical_matrix_t) (cell : cell_t) (es : ES)
    (is_eigenvectors is_band_connection : bool) (gv : option GV)
    (factor : R) :
  linalg_inv (get_cell cell) = None ->
  __init__ ((q0 :: rest) :: others) dynamical_matrix cell es
    is_eigenvectors is_band_connection gv factor
  = (Raise LinAlgError,
     [Open fn_sf_atoms; Open fn_sf_irs]
       ++ match gv with
          | Some _ => [SetQPoints (q0 :: rest); GetGroupVelocity]
          | None => []
          end
       ++ [Close fn_sf_irs; Close fn_sf_atoms]).
Proof.
  intros Hinv. unfold __init__.
  destruct dynamical_matrix as [[ | ]], gv as [g | ];
    run_with Hinv; reflexivity.
Qed.




(** X15. A construction that returns with at least one path had the
    non-analytic correction off and a lattice that can be inverted. *)
Theorem returned_construction_had_no_nac (paths : list (list vec3))
    (dynamical_matrix : dynamical_matrix_t) (cell : cell_t) (es : ES)
    (is_eigenvectors is_band_connection : bool) (gv : option GV)
    (factor : R) (self : self_t) (log : list event) :
  __init__ paths dynamical_matrix cell es is_eigenvectors
    is_band_connection gv factor = (Ok self, log) ->
  paths <> [] ->
  is_nac dynamical_matrix = false
  /\ exists inv, linalg_inv (get_cell cell) = Some inv.
Proof.
  intros Hrun Hne. apply init_full in Hrun.
  destruct Hrun as (B & s' & l & inv & _ & _ & _ & Hinv).
  destruct (Hinv Hne) as (H1 & H2). split; [exact H2 | eauto].
Qed.

(** The loop over the points with a batch of velocities that is too
    short: it raises at the first point without a velocity, once that
    point has been extracted and printed. *)
Lemma path_loop_short_batch (g : list (list vec3)) (qs : list vec3) :
  forall (i : nat) (L : path_locals) (s : self_t) (prev : vec3) (inv : mat3),
    _lastq s = Some prev ->
    linalg_inv (get_cell (_cell s)) = Some inv ->
    (i <= length g)%nat ->
    (length g < i + length qs)%nat ->
    exists s' l,
      for_enumerate (solve_point false (Some g)) i qs L s
      = (Raise IndexError, s', l)
      /\ extracted_points l = firstn (S (length g - i)) qs
      /\ printed_files l
         = flat_map (fun _ => [fn_sf_atoms; fn_sf_irs])
             (firstn (S (length g - i)) qs).
Proof.
  induction qs as [ | q qs IH]; intros i L s prev inv Hq Hinv Hle Hlt.
  - cbn in Hlt. lia.
  - cbn [for_enumerate]. unfold bind.
    rewrite solve_point_run, Hq, Hinv. cbv zeta.
    destruct (index g i) as [v | ] eqn:Hv.
    + assert (Hi : (i < length g)%nat).
      { apply nth_error_Some. unfold index in Hv. rewrite Hv. discriminate. }
      destruct (IH (S i)
                  (push_point (_is_eigenvectors s)
                     (_distance (shifted inv prev q s)) (_factor s)
                     (fst (extract_eigenstates (_eigenstates s) q))
                     (snd (extract_eigenstates (_eigenstates s) q))
                     (Some v) L)
                  (set_eigenstates
                     (fst (extract_eigenstates (_eigenstates s) q))
                     (shifted inv prev q s)) q inv)
        as (s' & l & -> & Hex & Hpr).
      * reflexivity.
      * exact Hinv.
      * lia.
      * cbn [length] in Hlt. lia.
      * eexists _, _. split; [reflexivity | ].
        rewrite extracted_points_app, printed_files_app, Hex, Hpr.
        replace (length g - i)%nat with (S (length g - S i)) by lia.
        split; reflexivity.
    + assert (Hi : (length g <= i)%nat).
      { apply nth_error_None. exact Hv. }
      eexists _, _. split; [reflexivity | ].
      replace (length g - i)%nat with 0%nat by lia.
      split; reflexivity.
Qed.

(** X16. With a group-velocity object whose batch for the first path
    holds fewer velocities than the path has points, the construction
    raises [IndexError] at the first point without a velocity, and only
    once that point has been extracted and printed to both files: the
    points extracted are those with a velocity and one more. *)
Theorem short_batch_raises_after_printing (q0 : vec3) (rest : list vec3)
    (others : list (list vec3)) (dynamical_matrix : dynamical_matrix_t)
    (cell : cell_t) (es : ES) (is_eigenvectors is_band_connection : bool)
    (g : GV) (factor : R) (inv : mat3) :
  is_nac dynamical_matrix = false ->
  linalg_inv (get_cell cell) = Some inv ->
  let path := q0 :: rest in
  let batch := get_group_velocity (set_q_points g path) in
  (length batch < length path)%nat ->
  exists log,
    __init__ (path :: others) dynamical_matrix cell es is_eigenvectors
      is_band_connection (Some g) factor = (Raise IndexError, log)
    /\ extracted_points log = firstn (S (length batch)) path
    /\ printed_files log
       = flat_map (fun _ => [fn_sf_atoms; fn_sf_irs])
           (firstn (S (length batch)) path).
Proof.
  intros Hnac Hinv path batch Hshort. subst path batch.
  unfold __init__, with_open, _set_band.
  unfold bind at 1. unfold get at 1. unfold bind at 1. cbn [_paths new_self].
  cbn [for_each]. unfold bind at 1.
  unfold set_band_path.
  unfold bind at 1. unfold ret at 1.
  unfold bind at 1. unfold _set_initial_point, modify at 1.
  unfold bind at 1. rewrite _solve_dm_on_path_run.
  unfold batch_result, batch_state, batch_events.
  cbn [_group_velocity set_lastq update new_self].
  match goal with
  | |- context [is_nac (_dynamical_matrix ?x)] =>
      change (is_nac (_dynamical_matrix x)) with (is_nac dynamical_matrix)
  end.
  rewrite Hnac.
  destruct (path_loop_short_batch
              (get_group_velocity (set_q_points g (q0 :: rest)))
              (q0 :: rest) 0 empty_path_locals
              (set_group_velocity (Some (set_q_points g (q0 :: rest)))
                 (set_lastq (Some q0)
                    (new_self ((q0 :: rest) :: others) dynamical_matrix cell
                       es is_eigenvectors is_band_connection (Some g)
                       factor)))
              q0 inv eq_refl Hinv ltac:(lia) ltac:(cbn; exact Hshort))
    as (s' & l & Hloop & Hex & Hpr).
  cbn [new_self] in Hloop. rewrite Hloop.
  eexists. split; [reflexivity | ].
  rewrite Nat.sub_0_r in Hex, Hpr.
  cbn [extracted_points printed_files app].
  rewrite !extracted_points_app, !printed_files_app, Hex, Hpr.
  cbn [extracted_points printed_files]. rewrite !app_nil_r.
  split; reflexivity.
Qed.

(* ------------------------------------------------------------------ *)
(** ** The exporters and the getter, on a constructed object *)



Lemma count_points (paths : list (list vec3)) (n : Z) :
  fold_left (fun n qpoints => (n + Z.of_nat (length qpoints))%Z) paths n
  = (n + Z.of_nat (length (concat paths)))%Z.
Proof.
  revert n. induction paths as [ | path paths IH]; intros n; cbn.
  - lia.
  - rewrite IH, length_app. lia.
Qed.

(** X18. On an object that a construction has returned, [write_yaml]
    always raises and leaves the object as it is. If the lattice cannot
    be inverted it raises [LinAlgError] with [band.yaml] opened and empty.
    Otherwise it writes the preamble, with the number of points of all
    paths, the number of paths, the number of atoms and the three rows of
    the transposed inverse lattice, then ["phonon:"], and raises
    [AttributeError] for [_weights]: no block of any q-point is written. *)
Theorem write_yaml_writes_preamble_only (paths : list (list vec3))
    (dynamical_matrix : dynamical_matrix_t) (cell : cell_t) (es : ES)
    (is_eigenvectors is_band_connection : bool) (gv : option GV)
    (factor : R) (self : self_t) (log : list event) :
  __init__ paths dynamical_matrix cell es is_eigenvectors
    is_band_connection gv factor = (Ok self, log) ->
  match linalg_inv (get_cell cell) with
  | None => write_yaml self = (Raise LinAlgError, self, [Open fn_yaml])
  | Some lattice =>
      write_yaml self
      = (Raise (AttributeError "_weights"), self,
         Open fn_yaml
           :: map (Write fn_yaml)
                [ "nqpoint: "
                    ++ fmt_d_left7 (Z.of_nat (length (concat paths))) ++ nl;
                  "npath: " ++ fmt_d_left7 (Z.of_nat (length paths)) ++ nl;
                  "natom: " ++ fmt_d_left7 (get_number_of_atoms cell) ++ nl;
                  "reciprocal_lattice:" ++ nl;
                  "- [ " ++ format_vec 12 8 (row0 (transpose lattice))
                    ++ " ] # " ++ fmt_s2 "a*" ++ nl;
                  "- [ " ++ format_vec 12 8 (row1 (transpose lattice))
                    ++ " ] # " ++ fmt_s2 "b*" ++ nl;
                  "- [ " ++ format_vec 12 8 (row2 (transpose lattice))
                    ++ " ] # " ++ fmt_s2 "c*" ++ nl;
                  "phonon:" ++ nl ]%string)
  end.
Proof.
  intros Hrun. apply init_closed_form in Hrun.
  destruct Hrun as (inv & _ & (Hp & Hc & _ & _ & _ & _ & Hw) & _).
  unfold write_yaml, bind, get, emit, write, for_enumerate_, getattr.
  rewrite Hc.
  destruct (linalg_inv (get_cell cell)) as [lattice | ]; [ | reflexivity].
  cbn [for_enumerate combine]. unfold bind, emit, ret.
  rewrite Hw, Hp, count_points. reflexivity.
Qed.

Lemma last_map_some {A : Type} (l : list A) (d : A) :
  l <> [] -> last (map Some l) None = Some (last l d).
Proof.
  destruct l as [ | x l]; [intros H; contradiction H; reflexivity | ].
  intros _. cbn [map]. rewrite !last_cons.
  revert x. induction l as [ | y l IH]; intros x; [reflexivity | ].
  cbn [map]. rewrite !last_cons. apply IH.
Qed.

Lemma last_map_default {A B : Type} (f : A -> B) (l : list A) (d : A) :
  last (map f l) (f d) = f (last l d).
Proof.
  revert d. induction l as [ | x l IH]; intros d; [reflexivity | ].
  cbn [map]. rewrite !last_cons. apply IH.
Qed.

(** The point-group symbols appended by a run of the loop of [_set_band]
    that returns. *)
Lemma band_loop_pg_symbols (paths : list (list vec3)) :
  forall (B B' : band_locals) (s s' : self_t) (l : list event),
    for_each set_band_path paths B s = (Ok B', s', l) ->
    pg_symbols B'
    = pg_symbols B
        ++ per_path
             (fun es path => map get_pointgroup_symbol (es_states es path))
             (_eigenstates s) paths.
Proof.
  induction paths as [ | path paths IH]; intros B B' s s' l Hrun.
  - cbn in Hrun. unfold ret in Hrun. inversion Hrun; subst.
    cbn. rewrite app_nil_r. reflexivity.
  - cbn [for_each] in Hrun. unfold bind in Hrun.
    destruct (set_band_path path B s) as [[[B1 | e] s1] l1] eqn:Hstep;
      [ | discriminate].
    destruct (for_each set_band_path paths B1 s1) as [[r s2] l2] eqn:Hloop.
    inversion Hrun; subst r s2 l; clear Hrun.
    apply set_band_path_full in Hstep.
    destruct Hstep as (q0 & rest & inv' & -> & _ & _ & -> & -> & _).
    apply IH in Hloop. cbn [pg_symbols _eigenstates update] in Hloop.
    rewrite Hloop. cbn [per_path]. rewrite <- app_assoc. reflexivity.
Qed.

(** X19. On an object that a construction has returned,
    [get_pg_symbol_on_path] gives the point-group symbols of the last
    path, one per point, which are the last entry kept in
    [self._pg_symbols]; if there was no path at all, it raises
    [AttributeError], the attribute never having been assigned. *)
Theorem get_pg_symbol_on_path_gives_last_path (paths : list (list vec3))
    (dynamical_matrix : dynamical_matrix_t) (cell : cell_t) (es : ES)
    (is_eigenvectors is_band_connection : bool) (gv : option GV)
    (factor : R) (self : self_t) (log : list event) :
  __init__ paths dynamical_matrix cell es is_eigenvectors
    is_band_connection gv factor = (Ok self, log) ->
  match paths with
  | [] =>
      get_pg_symbol_on_path self
      = (Raise (AttributeError "_pg_symbol_on_path"), self, [])
  | _ :: _ =>
      exists symbols,
        _pg_symbols self = Some symbols
        /\ get_pg_symbol_on_path self = (Ok (last symbols []), self, [])
        /\ length (last symbols []) = length (last paths [])
  end.
Proof.
  intros Hrun.
  pose proof (init_closed_form _ _ _ _ _ _ _ _ _ _ Hrun) as (inv & Hrest).
  do 11 (destruct Hrest as (_ & Hrest)). destruct Hrest as (HP & _).
  apply init_ok in Hrun.
  destruct Hrun as (B & s' & l & Hloop & Hself & _).
  pose proof (band_loop_pg_symbols _ _ _ _ _ _ Hloop) as HB.
  cbn [empty_band_locals pg_symbols app new_self _eigenstates] in HB.
  unfold get_pg_symbol_on_path, getattr. rewrite HP.
  destruct paths as [ | path paths]; [reflexivity | ].
  exists (pg_symbols B). split; [rewrite Hself; reflexivity | ].
  rewrite <- HB.
  assert (Hne : pg_symbols B <> []) by (rewrite HB; discriminate).
  rewrite (last_map_some _ [] Hne). split; [reflexivity | ].
  pose proof (band_loop_ok _ _ _ _ _ _ Hloop) as (_ & _ & _ & HL & _).
  cbn [empty_band_locals pg_symbols app map] in HL.
  change (@length string) with (fun l0 : list string => length l0) in HL.
  rewrite <- (last_map_default (@length string) (pg_symbols B) []).
  rewrite <- (last_map_default (@length vec3) (path :: paths) []).
  cbn [length]. f_equal. exact HL.
Qed.

(* ------------------------------------------------------------------ *)
(** ** A path without points *)




End Construction.

(* ------------------------------------------------------------------ *)
(** ** The instance, run *)

Lemma linalg_inv_identity : linalg_inv identity = Some (inverse_of identity).
Proof.
  unfold linalg_inv.
  destruct (Req_dec_T (det identity) 0) as [H | H]; [ | reflexivity].
  exfalso. unfold det, identity in H. lra.
Qed.

Ltac run_example :=
  repeat (cbv -[Rplus Rminus Rmult Rdiv Ropp Rinv sqrt Rabs IZR Rlt_dec
                linalg_inv identity inverse_of norm dot vsub transpose
                calculate_frequencies Example.gamma Example.half_x];
          rewrite ?linalg_inv_identity).

Lemma plain_returns : exists self log, Example.plain = (Ok self, log).
Proof. unfold Example.plain, __init__. run_example. eauto. Qed.

Lemma inverse_of_identity : inverse_of identity = identity.
Proof.
  unfold inverse_of, identity, det.
  repeat f_equal; field.
Qed.

(** On a lattice that is the identity, the path from (0, 0, 0) to
    (1/2, 0, 0) records the distances 0 and 1/2. *)
Example half_step_distance :
  exists self log,
    Example.plain = (Ok self, log) /\ _distances self = [[0; 1 / 2]].
Proof.
  unfold Example.plain, __init__. run_example. do 2 eexists.
  split; [reflexivity | ]. cbn [_distances].
  rewrite norm_zero_delta, inverse_of_identity.
  unfold norm, dot, vsub, transpose, identity, Example.half_x, Example.gamma.
  cbn.
  replace ((1 / 2 - 0) * 1 + (0 - 0) * 0 + (0 - 0) * 0) with (1 / 2) by field.
  replace ((1 / 2 - 0) * 0 + (0 - 0) * 1 + (0 - 0) * 0) with 0 by field.
  replace ((1 / 2 - 0) * 0 + (0 - 0) * 0 + (0 - 0) * 1) with 0 by field.
  replace (1 / 2 * (1 / 2) + 0 * 0 + 0 * 0) with ((1 / 2) * (1 / 2)) by field.
  rewrite sqrt_square by lra.
  replace (0 + 0) with 0 by ring.
  replace (0 + 1 / 2) with (1 / 2) by ring.
  reflexivity.
Qed.

Lemma half_x_solved :
  exists r s' l,
    solve_point false None 1 Example.half_x empty_path_locals Example.at_gamma
    = (r, s', l)
    /\ In (ExtractEigenstates Example.half_x) l.
Proof.
  unfold Example.at_gamma. run_example. do 3 eexists. split; [reflexivity | ].
  left. reflexivity.
Qed.

(** C1, on the instance. *)
Lemma walker_distance_witness :
  (exists self log,
      Example.plain = (Ok self, log)
      /\ Sorted Rle (0 :: concat (_distances self)))
  /\ 0 <= norm (dot (vsub Example.half_x Example.gamma)
                  (transpose (inverse_of identity))).
Proof.
  split.
  - destruct plain_returns as (self & log & H). exists self, log.
    split; [exact H | ].
    exact (proj2 (proj2 walker_distance_is_cumulative_norm)
             _ _ _ _ _ _ _ _ _ _ H).
  - exact (proj1 (proj2 (proj1 (proj2 walker_distance_is_cumulative_norm)
                           Example.half_x Example.gamma
                           (inverse_of identity) Example.at_gamma
                           eq_refl linalg_inv_identity))).
Defined.

(** C2, on the instance. *)
Lemma special_points_witness :
  exists self log,
    Example.plain = (Ok self, log)
    /\ length (_special_point self) = 2%nat
    /\ nth_error (_special_point self) 0 = Some 0
    /\ Sorted Rle (_special_point self).
Proof.
  destruct plain_returns as (self & log & H). exists self, log.
  split; [exact H | ].
  destruct (special_points_mark_path_ends _ _ _ _ _ _ _ _ _ _ H)
    as (Hlen & Hfirst & _ & _ & _ & Hsorted).
  repeat split; assumption.
Defined.

(** C9, on the instance. *)
Lemma path_start_witness :
  exists self log,
    Example.plain = (Ok self, log)
    /\ forall ds, nth_error (_distances self) 0 = Some ds ->
                  hd_error ds = Some 0.
Proof.
  destruct plain_returns as (self & log & H). exists self, log.
  split; [exact H | ].
  exact (proj1 (proj2
           (path_starts_at_preceding_special_point _ _ _ _ _ _ _ _ _ _ H))).
Defined.

(** C4, on the instance. *)
Lemma density_twice_witness :
  exists r s' l,
    solve_point false None 1 Example.half_x empty_path_locals Example.at_gamma
    = (r, s', l)
    /\ length (filter is_calculate_event l) = 2%nat.
Proof.
  destruct half_x_solved as (r & s' & l & Hrun & Hin). exists r, s', l.
  split; [exact Hrun | ].
  exact (proj1 (proj2
           (proj1 density_calculated_twice_per_point
              _ _ _ _ _ _ _ _ _ Hrun Hin))).
Defined.

(** C10, on the instance. *)
Lemma eigenvectors_argument_witness :
  exists r s' l,
    solve_point false None 1 Example.half_x empty_path_locals Example.at_gamma
    = (r, s', l)
    /\ printed_with None l
       = [(fn_sf_atoms, Some (out_eigvecs Example.two_bands));
          (fn_sf_irs, None)].
Proof.
  destruct half_x_solved as (r & s' & l & Hrun & Hin). exists r, s', l.
  split; [exact Hrun | ].
  exact (eigenvectors_go_to_atoms_calculation_only _ _ _ _ _ _ _ _ _ Hrun Hin).
Defined.

Lemma full_path_solved :
  exists L s' l,
    _solve_dm_on_path [Example.gamma; Example.half_x]
      Example.full_at_gamma
    = (Ok L, s', l).
Proof. unfold Example.full_at_gamma. run_example. eauto. Qed.

(** C8, on the instance. *)
Lemma group_velocity_batch_witness :
  exists L s' l,
    _solve_dm_on_path [Example.gamma; Example.half_x]
      Example.full_at_gamma
    = (Ok L, s', l)
    /\ filter is_gv_event l <> []
    /\ length (gv_on_path L) = 2%nat.
Proof.
  destruct full_path_solved as (L & s' & l & Hrun). exists L, s', l.
  split; [exact Hrun | ].
  destruct (group_velocity_batched_once_per_path _ _ _ _ _ Hrun)
    as (Hcalled & Hsome & _).
  split.
  - apply Hcalled. discriminate.
  - destruct (Hsome [] eq_refl) as (rest & _ & _ & _ & HL).
    exact (proj1 (HL L eq_refl)).
Defined.

(** C7, on the instance. *)
Lemma pg_symbols_witness :
  exists self log symbols,
    Example.plain = (Ok self, log)
    /\ _pg_symbols self = Some symbols
    /\ concat symbols = ["m-3m"; "4mm"]%string.
Proof.
  destruct plain_returns as (self & log & H).
  destruct (pg_symbols_kept_for_every_point _ _ _ _ _ _ _ _ _ _ H)
    as (symbols & Hs & _ & Hc).
  exists self, log, symbols. repeat split; assumption.
Defined.

(** C7 as the spec states it fails on the instance: two symbols are kept
    for the path of two points, the first of which is the symbol of the
    first point. *)
Lemma pg_symbols_counterexample :
  ~ (forall self log,
        Example.plain = (Ok self, log) ->
        keeps_last_symbol_only 0%nat [[Example.gamma; Example.half_x]] self).
Proof.
  intros Hclaim.
  assert (Hrun : exists self log,
             Example.plain = (Ok self, log)
             /\ _pg_symbols self = Some [["m-3m"; "4mm"]]%string).
  { unfold Example.plain, __init__. run_example. do 2 eexists.
    split; reflexivity. }
  destruct Hrun as (self & log & Hrun & Hsym).
  specialize (Hclaim self log Hrun). unfold keeps_last_symbol_only in Hclaim.
  rewrite Hsym in Hclaim. cbn in Hclaim. discriminate.
Qed.

(** C3, on the instance. *)
Lemma nac_raises_witness :
  Example.nac_one_path
  = (Raise ValueError,
     [Open fn_sf_atoms; Open fn_sf_irs;
      SetQPoints [Example.gamma; Example.half_x]; GetGroupVelocity;
      Print "ERROR: NAC is not implemented yet for unfolding";
      Close fn_sf_irs; Close fn_sf_atoms]).
Proof.
  exact (proj1 (nac_raises_at_first_point Example.gamma [Example.half_x] []
                  (DynamicalMatrix true) Example.cubic 0%nat false false
                  (Some []) 1 (inverse_of identity)
                  eq_refl linalg_inv_identity)).
Defined.

(** C3 as the spec states it fails on the instance: with the non-analytic
    correction switched on and no path, the construction returns. *)
Lemma nac_counterexample :
  exists self,
    Example.nac_no_path
    = (Ok self,
       [Open fn_sf_atoms; Open fn_sf_irs; Close fn_sf_irs; Close fn_sf_atoms])
    /\ is_nac (_dynamical_matrix self) = true.
Proof.
  unfold Example.nac_no_path, __init__. run_example. eexists.
  split; reflexivity.
Qed.

(* ------------------------------------------------------------------ *)
(** ** The exporters, run *)

(** C5. [write_yaml] reads [self._weights], an attribute that nothing
    assigns: on the object built for one path of one point with two bands
    and no optional feature, it raises [AttributeError] once the preamble
    is written, and writes no q-point block. *)
Theorem write_yaml_raises_after_preamble :
  exists self log,
    Example.single = (Ok self, log)
    /\ _weights self = None
    /\ write_yaml self
       = (Raise (AttributeError "_weights"), self,
          [ Open fn_yaml;
            Write fn_yaml ("nqpoint: " ++ fmt_d_left7 1 ++ nl);
            Write fn_yaml ("npath: " ++ fmt_d_left7 1 ++ nl);
            Write fn_yaml ("natom: " ++ fmt_d_left7 1 ++ nl);
            Write fn_yaml ("reciprocal_lattice:" ++ nl);
            Write fn_yaml
              ("- [ " ++ format_vec 12 8 (row0 (transpose (inverse_of identity)))
                 ++ " ] # " ++ fmt_s2 "a*" ++ nl);
            Write fn_yaml
              ("- [ " ++ format_vec 12 8 (row1 (transpose (inverse_of identity)))
                 ++ " ] # " ++ fmt_s2 "b*" ++ nl);
            Write fn_yaml
              ("- [ " ++ format_vec 12 8 (row2 (transpose (inverse_of identity)))
                 ++ " ] # " ++ fmt_s2 "c*" ++ nl);
            Write fn_yaml ("phonon:" ++ nl) ]%string).
Proof.
  unfold Example.single, __init__. run_example. do 2 eexists.
  split; [reflexivity | ]. split; [reflexivity | ].
  run_example. reflexivity.
Qed.

(** C6. [write_hdf5] gives the dataset ['group_velocities'] the
    group-velocity object [self._group_velocity] for data, and not the
    velocities collected in [self._group_velocities]. *)
Theorem write_hdf5_stores_group_velocity_object :
  exists self log g velocities events,
    Example.full = (Ok self, log)
    /\ _group_velocity self = Some g
    /\ _group_velocities self = Some velocities
    /\ write_hdf5 self = (Ok tt, self, events)
    /\ In (CreateDataset fn_hdf5 "group_velocities"
             (DataGroupVelocityObject g)) events
    /\ ~ In (CreateDataset fn_hdf5 "group_velocities" (DataVec3 velocities))
           events
    /\ exists eigenvectors,
         _eigenvectors self = Some eigenvectors
         /\ In (CreateDataset fn_hdf5 "eigenvectors_data"
                  (DataComplex4 eigenvectors)) events.
Proof.
  unfold Example.full, __init__. run_example. do 5 eexists.
  split; [reflexivity | ]. split; [reflexivity | ]. split; [reflexivity | ].
  split; [run_example; reflexivity | ].
  split; [cbn; tauto | ].
  split.
  - cbn. intros H.
    repeat (destruct H as [H | H]; [discriminate H | ]). exact H.
  - eexists. split; [reflexivity | ]. cbn. tauto.
Qed.

(* ------------------------------------------------------------------ *)
(** ** The properties of a whole construction, on the instance *)

Lemma full_returns : exists self log, Example.full = (Ok self, log).
Proof. unfold Example.full, __init__. run_example. eauto. Qed.

Lemma linalg_inv_flat : linalg_inv (get_cell Example.flat) = None.
Proof.
  unfold linalg_inv.
  destruct (Req_dec_T (det (get_cell Example.flat)) 0) as [H | H];
    [reflexivity | ].
  exfalso. apply H. unfold det, Example.flat, vzero. cbn. ring.
Qed.

(** X1, on the instance. *)
Lemma kept_arrays_lengths_witness :
  exists self log frequencies,
    Example.plain = (Ok self, log)
    /\ _frequencies self = Some frequencies
    /\ map (@length (list R)) frequencies = [2%nat].
Proof.
  destruct plain_returns as (self & log & H).
  destruct (kept_arrays_have_one_entry_per_point _ _ _ _ _ _ _ _ _ _ H)
    as (f & w & r & a & n & lab & Hf & _ & _ & _ & _ & _ & Hlen & _).
  exists self, log, f. repeat split; assumption.
Defined.

(** X2, on the instance. *)
Lemma kept_arrays_content_witness :
  exists self log,
    Example.plain = (Ok self, log)
    /\ option_map (@concat Z) (_nums_irreps self) = Some [2%Z; 2%Z].
Proof.
  destruct plain_returns as (self & log & H). exists self, log.
  split; [exact H | ].
  exact (proj1 (proj2 (proj2 (proj2 (proj2
           (kept_arrays_follow_the_extractions _ _ _ _ _ _ _ _ _ _ H)))))).
Defined.

(** X3, on the instance. *)
Lemma eigenvectors_kept_witness :
  exists self log,
    Example.full = (Ok self, log) /\ _is_eigenvectors self = true.
Proof.
  destruct full_returns as (self & log & H). exists self, log.
  split; [exact H | ].
  exact (proj1 (eigenvectors_kept_when_requested _ _ _ _ _ _ _ _ _ _ H)).
Defined.

(** X4, on the instance. *)
Lemma group_velocities_kept_witness :
  exists self log,
    Example.full = (Ok self, log)
    /\ _group_velocity self = Some [Example.gamma; Example.half_x].
Proof.
  destruct full_returns as (self & log & H). exists self, log.
  split; [exact H | ].
  exact (proj2 (proj2
           (group_velocities_kept_when_configured _ _ _ _ _ _ _ _ _ _ H))).
Defined.

(** X5, on the instance. *)
Lemma kept_distances_witness :
  exists self log,
    Example.plain = (Ok self, log)
    /\ _distances self
       = band_walk (inverse_of identity) 0
           [[Example.gamma; Example.half_x]].
Proof.
  destruct plain_returns as (self & log & H). exists self, log.
  split; [exact H | ].
  exact (kept_distances_are_the_walk _ _ _ _ _ _ _ _ _ _ _ H
           linalg_inv_identity).
Defined.

(** X6, on the instance. *)
Lemma construction_keeps_witness :
  exists self log,
    Example.plain = (Ok self, log)
    /\ _paths self = [[Example.gamma; Example.half_x]]
    /\ _weights self = None.
Proof.
  destruct plain_returns as (self & log & H). exists self, log.
  split; [exact H | ].
  destruct (construction_keeps_what_it_was_given _ _ _ _ _ _ _ _ _ _ H)
    as (Hp & _ & _ & _ & _ & Hw).
  split; assumption.
Defined.

(** X7, on the instance. *)
Lemma walker_ends_witness :
  exists self log,
    Example.plain = (Ok self, log) /\ _lastq self = Some Example.half_x.
Proof.
  destruct plain_returns as (self & log & H). exists self, log.
  split; [exact H | ].
  exact (proj2 (walker_ends_at_last_point _ _ _ _ _ _ _ _ _ _ H)).
Defined.

(** X8, on the instance. *)
Lemma extraction_order_witness :
  exists self log,
    Example.full = (Ok self, log)
    /\ extracted_points log = [Example.gamma; Example.half_x].
Proof.
  destruct full_returns as (self & log & H). exists self, log.
  split; [exact H | ].
  exact (every_point_extracted_once_in_order _ _ _ _ _ _ _ _ _ _ H).
Defined.

(** X9, on the instance. *)
Lemma printed_lines_witness :
  exists self log,
    Example.full = (Ok self, log)
    /\ printed_files log = [fn_sf_atoms; fn_sf_irs; fn_sf_atoms; fn_sf_irs].
Proof.
  destruct full_returns as (self & log & H). exists self, log.
  split; [exact H | ].
  exact (proj1 (one_line_per_point_in_each_file _ _ _ _ _ _ _ _ _ _ H)).
Defined.

(** X10, on the instance. *)
Lemma group_velocity_calls_witness :
  exists self log,
    Example.full = (Ok self, log)
    /\ filter is_gv_event log
       = [SetQPoints [Example.gamma; Example.half_x]; GetGroupVelocity].
Proof.
  destruct full_returns as (self & log & H). exists self, log.
  split; [exact H | ].
  exact (group_velocity_called_once_per_path_in_order
           _ _ _ _ _ _ _ _ _ _ H).
Defined.


(** X13, on the instance. *)
Lemma singular_lattice_witness :
  __init__ [[Example.gamma; Example.half_x]] (DynamicalMatrix true)
    Example.flat 0%nat false false (@None (list vec3)) 1
  = (Raise LinAlgError,
     [Open fn_sf_atoms; Open fn_sf_irs; Close fn_sf_irs; Close fn_sf_atoms]).
Proof.
  exact (singular_lattice_raises_before_nac_test Example.gamma
           [Example.half_x] [] (DynamicalMatrix true) Example.flat 0%nat
           false false None 1 linalg_inv_flat).
Defined.


(** X15, on the instance. *)
Lemma returned_without_nac_witness :
  exists self log,
    Example.plain = (Ok self, log)
    /\ exists inv, linalg_inv (get_cell Example.cubic) = Some inv.
Proof.
  destruct plain_returns as (self & log & H). exists self, log.
  split; [exact H | ].
  refine (proj2 (returned_construction_had_no_nac _ _ _ _ _ _ _ _ _ _ H _)).
  discriminate.
Defined.

(** X16, on the instance. *)
Lemma short_batch_witness :
  exists log,
    @__init__ nat (list R) unit _ Example.silent_group_velocity
      [[Example.gamma; Example.half_x]] (DynamicalMatrix false)
      Example.cubic 0%nat false false (Some tt) 1
    = (Raise IndexError, log)
    /\ extracted_points log = [Example.gamma].
Proof.
  destruct (@short_batch_raises_after_printing nat (list R) unit _
              Example.silent_group_velocity Example.gamma [Example.half_x]
              [] (DynamicalMatrix false) Example.cubic 0%nat false false tt 1
              (inverse_of identity) eq_refl linalg_inv_identity)
    as (log & Hrun & Hex & _).
  - cbn. lia.
  - exists log. split; [exact Hrun | exact Hex].
Defined.


(** X18, on the instance. *)
Lemma write_yaml_preamble_witness :
  exists self log events,
    Example.plain = (Ok self, log)
    /\ write_yaml self = (Raise (AttributeError "_weights"), self, events)
    /\ length events = 9%nat.
Proof.
  destruct plain_returns as (self & log & H).
  pose proof (write_yaml_writes_preamble_only _ _ _ _ _ _ _ _ _ _ H) as Hw.
  cbn [get_cell Example.cubic] in Hw. rewrite linalg_inv_identity in Hw.
  eexists self, log, _. split; [exact H | ]. split; [exact Hw | ].
  reflexivity.
Defined.

(** X19, on the instance. *)
Lemma get_pg_symbol_witness :
  exists self log symbols,
    Example.plain = (Ok self, log)
    /\ get_pg_symbol_on_path self = (Ok symbols, self, [])
    /\ length symbols = 2%nat.
Proof.
  destruct plain_returns as (self & log & H).
  destruct (get_pg_symbol_on_path_gives_last_path _ _ _ _ _ _ _ _ _ _ H)
    as (symbols & _ & Hg & Hlen).
  exists self, log, (last symbols []).
  split; [exact H | ]. split; [exact Hg | exact Hlen].
Defined.

